(** * NeuraPath: resume-to-role fit scoring

    A shallow embedding of the core of [neurapath_demo.ipynb]: the industry
    classifier, the role/job index, the per-role skill profile builder, the
    resume skill extractor, the fit scorer and the report generator.

    Modelling conventions.
    - Python [str] values are [string]s of ASCII characters; [str.lower]
      lower-cases the letters A-Z and leaves every other character alone,
      and [\w] is a letter, a digit or the underscore.
    - The numbers of [fit_score] and of the report are Python floats, that
      is binary64 numbers: a finite double is given by its value in [Q], and
      every operation rounds the exact result to the nearest double, ties to
      the even significand ([Float.round]). The two zeros are identified
      (Python compares them equal, and both are false). The share
      [pct_jobs] of a profile row is kept as the exact quotient.
    - Python [set]s of skill identifiers are [gset string]. The order in
      which a [for] loop visits a set is fixed by the interpreter's hash
      table and is a parameter ([SetOrder]).
    - The global tables of the notebook ([skills], [job_skills],
      [industries], [job_industries], [ROLE_KEYWORDS], [role_profiles]) are
      parameters of the functions that read them.
    - A pandas DataFrame is a list of rows in index order, together with the
      information whether the frame has columns at all ([pd.DataFrame()] has
      none, and reading a column of it raises [AttributeError]).
    - Errors are values of [py_error] threaded through a small error monad.
    - The extractor reads the global name [re] when it runs. No cell of the
      notebook binds it, so that in the notebook as written the lookup
      raises [NameError] ([notebook_globals]); what the name is bound to is
      a parameter ([Globals.t]), and [globals_with_re] binds it to Python's
      standard module. *)

From Stdlib Require Import ZArith QArith Qround Qpower Qreduction Lqa Lia Bool.
From Stdlib Require Import Ascii String DecimalString.
From stdpp Require Import base decidable list gmap strings sorting.

Set Warnings "-clear-no-such-hyp".

Local Open Scope string_scope.

(** ** Python values and strings *)

Module PyStr.

(** Cells of an object column, as [pd.read_csv] produces them (of the
    floats, only NaN, the missing value). *)
Inductive pyobj :=
| PStr (s : string)
| PInt (z : Z)
| PBool (b : bool)
| PNaN
| PNone.

(** [str(x)] *)
Definition py_str (x : pyobj) : string :=
  match x with
  | PStr s => s
  | PInt z => NilZero.string_of_int (Z.to_int z)
  | PBool true => "True"
  | PBool false => "False"
  | PNaN => "nan"
  | PNone => "None"
  end.

Definition between (lo hi : N) (c : ascii) : bool :=
  let n := N_of_ascii c in (lo <=? n)%N && (n <=? hi)%N.

Definition is_upper (c : ascii) : bool := between 65 90 c.
Definition is_lower (c : ascii) : bool := between 97 122 c.
Definition is_digit (c : ascii) : bool := between 48 57 c.

Definition lower_ascii (c : ascii) : ascii :=
  if is_upper c then ascii_of_N (N_of_ascii c + 32) else c.

(** [s.lower()] *)
Fixpoint lower (s : string) : string :=
  match s with
  | EmptyString => EmptyString
  | String c r => String (lower_ascii c) (lower r)
  end.

(** [s.startswith(p)], returning the remainder of [s] after [p]. *)
Fixpoint strip_prefix (p s : string) : option string :=
  match p, s with
  | EmptyString, _ => Some s
  | String a p', String b s' => if Ascii.eqb a b then strip_prefix p' s' else None
  | String _ _, EmptyString => None
  end.

(** [kw in s] on strings: [kw] starts at some position of [s]. *)
Fixpoint str_in (kw s : string) : bool :=
  match strip_prefix kw s with
  | Some _ => true
  | None => match s with
            | EmptyString => false
            | String _ r => str_in kw r
            end
  end.

(** [c.isalnum()] on ASCII characters. *)
Definition is_alnum (c : ascii) : bool := is_lower c || is_upper c || is_digit c.

(** [any(p(c) for c in s)] *)
Fixpoint str_any (p : ascii → bool) (s : string) : bool :=
  match s with
  | EmptyString => false
  | String c r => p c || str_any p r
  end.

(** The specification of [kw in s]. *)
Definition is_substring (kw s : string) : Prop :=
  ∃ pre post, s = pre +:+ kw +:+ post.

End PyStr.
Export PyStr.

(** ** 4A. Industries to roles *)

Section Classifier.

(** The role configuration: an ordered dictionary from a role key to its
    keywords. *)
Variable role_keywords : list (string * list string).

(** [any(kw in name_l for kw in kws)] *)
Definition any_kw_in (name_l : string) (kws : list string) : bool :=
  existsb (fun kw => str_in kw name_l) kws.

Fixpoint roles_loop (name_l : string) (items : list (string * list string))
  : list string :=
  match items with
  | [] => []
  | (role, kws) :: rest =>
      if any_kw_in name_l kws then role :: roles_loop name_l rest
      else roles_loop name_l rest
  end.

Definition assign_role_from_industry (industry_name : pyobj) : list string :=
  let name_l := lower (py_str industry_name) in
  roles_loop name_l role_keywords.

End Classifier.

Definition ROLE_KEYWORDS : list (string * list string) :=
[ ("DATA_ANALYST",  ["data"; "analytics"]);
  ("ML_ENGINEER",   ["software"; "technology"; "security"]);
  ("NETWORK_ADMIN", ["network"; "telecommunications"; "it system"]);
  ("FRONTEND_DEV",  ["internet"; "software"; "web"]);
  ("IT_SUPPORT",    ["consult"; "it services"; "services"]) ].

(** ** Errors *)

Inductive py_error := AttributeError | KeyError | NameError | ZeroDivisionError.

Inductive result (A : Type) :=
| Ok (a : A)
| Raise (e : py_error).
Arguments Ok {A} a.
Arguments Raise {A} e.

#[export] Instance result_ret : MRet result := λ A a, Ok a.
#[export] Instance result_bind : MBind result := λ A B f m,
  match m with
  | Ok a => f a
  | Raise e => Raise e
  end.

(** ** Python floats *)

(** Rounding to the nearest integer, halves to the even neighbour. *)
Definition round_half_even (x : Q) : Z :=
  let f := Qfloor x in
  match (x - inject_Z f ?= (1 # 2))%Q with
  | Lt => f
  | Gt => (f + 1)%Z
  | Eq => if Z.even f then f else (f + 1)%Z
  end.

Module Float.

(** A float: a finite double by its value, an infinity or NaN. *)
Inductive t :=
| Finite (q : Q)
| Inf (negative : bool)
| NaN.

(** binary64: 53 bits of significand, the smallest positive double is
    [2^emin], and [2^emax] is the first power of two beyond the doubles. *)
Definition prec : Z := 53.
Definition emin : Z := -1074.
Definition emax : Z := 1024.

Definition pow2 (e : Z) : Q := (2 ^ e)%Q.

(** The exponent [k] with [2^k <= x < 2^(k+1)], for a positive [x]. *)
Definition ilog2 (x : Q) : Z :=
  let k := (Z.log2 (Qnum x) - Z.log2 (Zpos (Qden x)))%Z in
  if Qle_bool (pow2 k) x then k else (k - 1)%Z.

(** The exponent of the last bit of the doubles around [x]. *)
Definition ulp_exp (x : Q) : Z := Z.max (ilog2 x - (prec - 1)) emin.

(** The nearest multiple of the last bit, ties to even, for a positive
    [x] and without a bound on the exponent. *)
Definition round_pos (x : Q) : Q :=
  let e := ulp_exp x in
  (inject_Z (round_half_even (x / pow2 e)) * pow2 e)%Q.

(** The double nearest to [x]; beyond the largest double, an infinity. *)
Definition round (x : Q) : t :=
  let x := Qred x in
  match (x ?= 0)%Q with
  | Eq => Finite 0
  | Gt => let r := round_pos x in
          if Qle_bool (pow2 emax) r then Inf false else Finite (Qred r)
  | Lt => let r := round_pos (- x) in
          if Qle_bool (pow2 emax) r then Inf true else Finite (Qred (- r))
  end.

Definition is_zero (x : t) : bool :=
  match x with
  | Finite q => Qeq_bool q 0
  | _ => false
  end.

Definition negative (x : t) : bool :=
  match x with
  | Finite q => negb (Qle_bool 0 q)
  | Inf s => s
  | NaN => false
  end.

(** [bool(x)]: every float but zero is true, NaN included. *)
Definition truthy (x : t) : bool := negb (is_zero x).

(** [x + y] *)
Definition add (x y : t) : t :=
  match x, y with
  | NaN, _ | _, NaN => NaN
  | Finite a, Finite b => round (a + b)
  | Inf s, Finite _ | Finite _, Inf s => Inf s
  | Inf s, Inf s' => if Bool.eqb s s' then Inf s else NaN
  end.

(** [x * y] *)
Definition mul (x y : t) : t :=
  match x, y with
  | NaN, _ | _, NaN => NaN
  | Finite a, Finite b => round (a * b)
  | Inf s, Finite b | Finite b, Inf s =>
      if Qeq_bool b 0 then NaN else Inf (xorb s (negb (Qle_bool 0 b)))
  | Inf s, Inf s' => Inf (xorb s s')
  end.

(** [x / y]; Python raises [ZeroDivisionError] for a zero divisor, also
    for an infinite or NaN dividend. *)
Definition div (x y : t) : result t :=
  if is_zero y then Raise ZeroDivisionError
  else Ok match x, y with
          | NaN, _ | _, NaN => NaN
          | Finite a, Finite b => round (a / b)
          | Finite _, Inf _ => Finite 0
          | Inf s, Finite _ => Inf (xorb s (negative y))
          | Inf _, Inf _ => NaN
          end.

(** [float(n)] for the length [n] of a collection. *)
Definition of_nat (n : nat) : t := round (inject_Z (Z.of_nat n)).

End Float.

(** ** The input tables *)

Module Skills.
Record row := { skill_abr : string; skill_name : string }.
End Skills.

Module JobSkills.
Record row := { job_id : Z; skill_abr : string }.
#[global] Instance row_eq_dec : EqDecision row.
Proof. solve_decision. Defined.
End JobSkills.

Module Industries.
Record row := { industry_id : Z; industry_name : pyobj }.
End Industries.

Module JobIndustries.
Record row := { job_id : Z; industry_id : Z }.
End JobIndustries.

Module JobRoles.
Record row := { job_id : Z; industry_id : Z; role : string }.
End JobRoles.

(** A row of a role profile. [skill_name] is [None] where the left merge
    found no catalog entry (pandas stores NaN there). *)
Module Profile.
Record row := {
  skill_abr : string;
  count : nat;
  pct_jobs : Q;
  skill_name : option string;
  required : bool;
  role : string
}.
End Profile.

(** What [build_role_skill_profile] returns: [pd.DataFrame()], which has no
    columns at all, or a frame with the profile columns. *)
Inductive DataFrame :=
| NoColumns
| Table (rows : list Profile.row).

(** The rows of a frame; a frame without columns has none. *)
Definition frame_rows (df : DataFrame) : list Profile.row :=
  match df with
  | NoColumns => []
  | Table rows => rows
  end.

(** Reading a column ([df.required], [df.skill_abr]) of a frame. *)
Definition columns (df : DataFrame) : result (list Profile.row) :=
  match df with
  | NoColumns => Raise AttributeError
  | Table rows => Ok rows
  end.

(** ** pandas operations *)

Module Pandas.

(** [Series.unique()]: the distinct values in order of first appearance. *)
Fixpoint unique `{EqDecision A} (l : list A) : list A :=
  match l with
  | [] => []
  | x :: r => x :: filter (λ y, y ≠ x) (unique r)
  end.

(** Insertion of [x] in front of a list sorted in descending order: [x] goes
    before the first element that does not strictly exceed it. *)
Fixpoint insert_desc {A} (gt : A → A → bool) (x : A) (l : list A) : list A :=
  match l with
  | [] => [x]
  | y :: r => if gt y x then y :: insert_desc gt x r else x :: y :: r
  end.

(** [sort_values(..., ascending=False)] as an insertion sort: the source
    names no secondary key, and rows with equal keys keep their order
    (pandas sorts the reversed column and reverses the outcome, and numpy's
    default sort works by insertion on short arrays). [gt y x] says that the
    key of [y] is strictly greater than the key of [x]. *)
Definition sort_desc {A} (gt : A → A → bool) (l : list A) : list A :=
  foldr (insert_desc gt) [] l.

(** [y] may stand before [x] in a descending order: [x] is not strictly
    greater than [y]. *)
Definition not_below {A} (gt : A → A → bool) (y x : A) : Prop := gt x y = false.

(** [Series.value_counts()]: one entry per distinct value with its number of
    occurrences, the most frequent first. *)
Definition value_counts (l : list string) : list (string * nat) :=
  sort_desc (λ y x, (x.2 <? y.2)%nat)
            ((λ k, (k, length (filter (λ v, v = k) l))) <$> unique l).

(** [left.merge(skills, on="skill_abr", how="left")] for one left row: one
    output per catalog entry of the skill, in catalog order, or a single
    output without a name. *)
Definition merge_row (skills : list Skills.row) (f : string * nat * Q)
  : list (string * nat * Q * option string) :=
  match filter (λ s, Skills.skill_abr s = f.1.1) skills with
  | [] => [(f, None)]
  | hits => (λ s, (f, Some (Skills.skill_name s))) <$> hits
  end.

Definition merge_left (skills : list Skills.row) (freq : list (string * nat * Q))
  : list (string * nat * Q * option string) :=
  freq ≫= merge_row skills.

End Pandas.

(** ** 4A/4B. The role index and the profile builder *)

Section Profiles.

Variable role_keywords : list (string * list string).
Variable skills : list Skills.row.
Variable job_skills : list JobSkills.row.
Variable industries : list Industries.row.
Variable job_industries : list JobIndustries.row.

(** [industries.explode("roles").dropna(subset=["roles"])], projected to
    [industry_id] and [role]. *)
Definition ind_role : list (Z * string) :=
  ind ← industries;
  (λ r, (Industries.industry_id ind, r))
    <$> assign_role_from_industry role_keywords (Industries.industry_name ind).

(** [job_industries.merge(ind_role, on="industry_id", how="inner")] *)
Definition job_roles : list JobRoles.row :=
  ji ← job_industries;
  (λ ir, {| JobRoles.job_id := JobIndustries.job_id ji;
            JobRoles.industry_id := JobIndustries.industry_id ji;
            JobRoles.role := ir.2 |})
    <$> filter (λ ir, ir.1 = JobIndustries.industry_id ji) ind_role.

(** [job_roles.loc[job_roles.role == role, "job_id"].unique()] *)
Definition role_job_ids (role : string) : list Z :=
  Pandas.unique (JobRoles.job_id <$> filter (λ jr, JobRoles.role jr = role) job_roles).

Definition Q_of_len {A} (l : list A) : Q := inject_Z (Z.of_nat (length l)).

Definition profile_row (role : string) (required_pct : Q)
    (m : string * nat * Q * option string) : Profile.row :=
  let '(abr, cnt, pct, name) := m in
  {| Profile.skill_abr := abr;
     Profile.count := cnt;
     Profile.pct_jobs := pct;
     Profile.skill_name := name;
     Profile.required := Qle_bool required_pct pct;
     Profile.role := role |}.

Definition pct_gt (y x : Profile.row) : bool :=
  negb (Qle_bool (Profile.pct_jobs y) (Profile.pct_jobs x)).

Definition build_role_skill_profile (role : string) (min_jobs : Z) (required_pct : Q)
  : DataFrame :=
  let job_ids := role_job_ids role in
  if (length job_ids =? 0)%nat then NoColumns
  else
    let js := filter (λ r, JobSkills.job_id r ∈ job_ids) job_skills in
    let freq := Pandas.value_counts (JobSkills.skill_abr <$> js) in
    let freq := (λ f, (f, (inject_Z (Z.of_nat f.2) / Q_of_len job_ids)%Q)) <$> freq in
    let freq := Pandas.merge_left skills freq in
    let freq := profile_row role required_pct <$> freq in
    Table (Pandas.sort_desc pct_gt freq).

(** The job-skill links aggregated for a role, and the number of them that
    name a given skill. *)
Definition role_links (role : string) : list JobSkills.row :=
  filter (λ r, JobSkills.job_id r ∈ role_job_ids role) job_skills.

Definition occurrences (role abr : string) : nat :=
  length (filter (λ r, JobSkills.skill_abr r = abr) (role_links role)).

(** The frequency table after the merge with the catalog, before the
    [required] and [role] columns are added, and the comparison of two of
    its rows by [pct_jobs]. *)
Definition merged_freq (role : string) : list (string * nat * Q * option string) :=
  Pandas.merge_left skills
    ((λ f, (f, (inject_Z (Z.of_nat f.2) / Q_of_len (role_job_ids role))%Q))
       <$> Pandas.value_counts (JobSkills.skill_abr <$> role_links role)).

Definition merged_gt (y x : string * nat * Q * option string) : bool :=
  negb (Qle_bool y.1.2 x.1.2).

(** The catalog names attached to a skill by the left merge. *)
Definition catalog_name (abr : string) (name : option string) : Prop :=
  (name = None ∧ ∀ s, s ∈ skills → Skills.skill_abr s ≠ abr)
  ∨ ∃ s, s ∈ skills ∧ Skills.skill_abr s = abr ∧ name = Some (Skills.skill_name s).

(** [{r: build_role_skill_profile(r) for r in ROLE_KEYWORDS}], with the
    default arguments [min_jobs=50], [required_pct=0.30]. *)
Definition role_profiles : list (string * DataFrame) :=
  (λ kv, (kv.1, build_role_skill_profile kv.1 50 (3 # 10))) <$> role_keywords.

End Profiles.

(** ** 4C. Resume skill extraction *)

Module Regex.

(** The character class [[a-z0-9]]. *)
Definition is_alnum_lower (c : ascii) : bool := is_lower c || is_digit c.

(** [re.sub(r"[^a-z0-9]+", "|", s)]: every maximal run of characters outside
    the class becomes one separator. [in_run] tells that the previous
    character belonged to such a run. *)
Fixpoint replace_runs (in_run : bool) (s : string) : string :=
  match s with
  | EmptyString => EmptyString
  | String c r =>
      if is_alnum_lower c then String c (replace_runs false r)
      else if in_run then replace_runs true r
      else String "|" (replace_runs true r)
  end.

(** The alternatives of a pattern over [[a-z0-9|]]: its pieces between
    separators. A leading or trailing separator leaves an empty piece. *)
Fixpoint split_alt (pat : string) : list string :=
  match pat with
  | EmptyString => [EmptyString]
  | String c r =>
      if Ascii.eqb c "|" then EmptyString :: split_alt r
      else match split_alt r with
           | [] => [String c EmptyString]
           | t :: ts => String c t :: ts
           end
  end.

(** [\w] *)
Definition is_word (c : ascii) : bool :=
  is_lower c || is_upper c || is_digit c || Ascii.eqb c "_".

Definition is_word_at (o : option ascii) : bool :=
  match o with
  | Some c => is_word c
  | None => false
  end.

(** [\b] between the character before a position and the one after it;
    outside the text counts as a non-word character. *)
Definition word_boundary (prev next : option ascii) : bool :=
  xorb (is_word_at prev) (is_word_at next).

Definition first_char (s : string) : option ascii :=
  match s with
  | EmptyString => None
  | String c _ => Some c
  end.

(** The character before the position reached after reading [t]. *)
Fixpoint last_char (prev : option ascii) (t : string) : option ascii :=
  match t with
  | EmptyString => prev
  | String c r => last_char (Some c) r
  end.

(** One alternative [t] read at the current position, followed by [\b]. *)
Definition alt_matches (prev : option ascii) (text t : string) : bool :=
  match strip_prefix t text with
  | Some rest => word_boundary (last_char prev t) (first_char rest)
  | None => false
  end.

(** [\b(t1|...|tn)\b] tried at the current position, then at the later
    ones. [prev] is the character before the current position. *)
Fixpoint search_from (alts : list string) (prev : option ascii) (text : string) : bool :=
  (word_boundary prev (first_char text) && existsb (alt_matches prev text) alts)
  || match text with
     | EmptyString => false
     | String c r => search_from alts (Some c) r
     end.

(** [re.search(r"\b(" + pat + r")\b", text)] as a truth value, for a pattern
    over [[a-z0-9|]]. *)
Definition re_search (pat text : string) : bool :=
  search_from (split_alt pat) None text.

End Regex.

Module SkillPatterns.
Record row := { skill_abr : string; skill_name : string; pattern : string }.
End SkillPatterns.

(** [skills["skill_name"].str.lower().str.replace(r"[^a-z0-9]+", "|", regex=True)] *)
Definition make_pattern (skill_name : string) : string :=
  Regex.replace_runs false (lower skill_name).

(** The name begins or ends with a character that is no letter or digit. *)
Definition non_alnum_at_edge (name : string) : Prop :=
  ∃ c, (Regex.first_char name = Some c ∨ Regex.last_char None name = Some c)
       ∧ is_alnum c = false.

(** The catalog with its [pattern] column. *)
Definition add_pattern (s : Skills.row) : SkillPatterns.row :=
  {| SkillPatterns.skill_abr := Skills.skill_abr s;
     SkillPatterns.skill_name := Skills.skill_name s;
     SkillPatterns.pattern := make_pattern (Skills.skill_name s) |}.

Definition with_pattern (skills : list Skills.row) : list SkillPatterns.row :=
  add_pattern <$> skills.

(** The global names of the notebook that its functions look up when they
    run: of these only [re] is bound by no cell. A value bound to it is
    given by its [search], as the truth value of
    [re.search(r"\b(" + pat + r")\b", text)]. *)
Module Globals.
Record t := { re : option (string → string → bool) }.
End Globals.

(** The notebook as written: no cell imports [re]. *)
Definition notebook_globals : Globals.t := {| Globals.re := None |}.

(** The notebook after [import re]. *)
Definition globals_with_re : Globals.t := {| Globals.re := Some Regex.re_search |}.

(** Evaluating the name [re]. *)
Definition lookup_re (g : Globals.t) : result (string → string → bool) :=
  match Globals.re g with
  | Some search => Ok search
  | None => Raise NameError
  end.

(** The pattern passes the guard [if not pat or pat == "|": continue]. *)
Definition usable (row : SkillPatterns.row) : Prop :=
  SkillPatterns.pattern row ≠ "" ∧ SkillPatterns.pattern row ≠ "|".

#[global] Instance usable_dec row : Decision (usable row).
Proof. unfold usable. apply _. Defined.

Fixpoint extract_loop (g : Globals.t) (text : string) (rows : list SkillPatterns.row)
    (found : gset string) : result (gset string) :=
  match rows with
  | [] => mret found
  | row :: rest =>
      let pat := SkillPatterns.pattern row in
      if String.eqb pat "" || String.eqb pat "|" then extract_loop g text rest found
      else
        search ← lookup_re g;
        if (search : string → string → bool) pat text
        then extract_loop g text rest ({[SkillPatterns.skill_abr row]} ∪ found)
        else extract_loop g text rest found
  end.

Definition extract_resume_skills (g : Globals.t) (skills : list SkillPatterns.row)
    (resume_text : string) : result (gset string) :=
  let text := lower resume_text in
  extract_loop g text skills ∅.

(** ** Step 5. The fit score *)

Definition required_set (rows : list Profile.row) : gset string :=
  list_to_set (Profile.skill_abr <$> filter (λ r, Profile.required r = true) rows).

Definition optional_set (rows : list Profile.row) : gset string :=
  list_to_set (Profile.skill_abr <$> filter (λ r, Profile.required r = false) rows).

(** The order in which a [for] loop visits the elements of a set: each
    element once, in an order that depends on the hashes of the strings
    (which change from one run of the interpreter to the next) and is left
    open here. *)
Class SetOrder := {
  set_iter : gset string → list string;
  set_iter_perm (X : gset string) : set_iter X ≡ₚ elements X
}.

(** One such order. *)
Definition elements_order : SetOrder :=
  {| set_iter := elements; set_iter_perm := λ X, reflexivity (elements X) |}.

(** Another one. *)
Definition reverse_order : SetOrder :=
  {| set_iter := λ X, reverse (elements X);
     set_iter_perm := λ X, reverse_Permutation (elements X) |}.

(** One turn of the loop over the resume skills. The integers [0] and [1] of
    the source become floats when they meet the float weight; below [2^53]
    the conversion is exact and sums of integers are the same in both
    types, so that the score is kept as a float throughout. *)
Definition add_weight (req opt : gset string) (required_weight : Float.t)
    (score : Float.t) (s : string) : Float.t :=
  if decide (s ∈ req) then Float.add score required_weight
  else if decide (s ∈ opt) then Float.add score (Float.Finite 1)
  else score.

(** The loop, from [score = 0]. *)
Definition score_loop `{SetOrder} (req opt : gset string) (required_weight : Float.t)
    (resume_skills : gset string) : Float.t :=
  foldl (add_weight req opt required_weight) (Float.Finite 0) (set_iter resume_skills).

(** [required_weight*len(req) + len(opt)] *)
Definition score_denom (req opt : gset string) (required_weight : Float.t) : Float.t :=
  Float.add (Float.mul required_weight (Float.of_nat (size req)))
            (Float.of_nat (size opt)).

Definition fit_score `{SetOrder} (resume_skills : gset string) (role_profile : DataFrame)
    (required_weight : Float.t) : result Float.t :=
  rows ← columns role_profile;
  let req := required_set rows in
  let opt := optional_set rows in
  let denom := score_denom req opt required_weight in
  let score := score_loop req opt required_weight resume_skills in
  if Float.truthy denom then Float.div score denom else mret (Float.Finite 0).

(** The numerator and the denominator of the score as whole numbers, for a
    whole weight [k]: [k] for every required skill of the resume and one
    for every other optional skill of it, out of [k] for every required
    and one for every optional skill. *)
Definition weighted_hits (req opt : gset string) (k : Z) (resume_skills : gset string) : Z :=
  (k * Z.of_nat (size (resume_skills ∩ req))
   + Z.of_nat (size (resume_skills ∩ (opt ∖ req))))%Z.

Definition weighted_total (req opt : gset string) (k : Z) : Z :=
  (k * Z.of_nat (size req) + Z.of_nat (size opt))%Z.

(** A whole weight [k >= 0] and a profile small enough for every sum and
    product of [fit_score] to be a whole number of at most 53 bits: none of
    the float operations before the final division rounds. The default
    weight 2.0 is of this kind for every profile of at most [2^52] rows. *)
Definition whole_weight (k : Z) (rows : list Profile.row) : Prop :=
  (0 ≤ k)%Z ∧ (Z.max k 1 * Z.of_nat (length rows) ≤ 2 ^ 53)%Z.

(** ** Step 6. The fit report *)

(** [round(x, ndigits)]: the decimal nearest to the value of the double,
    ties to even, then the double nearest to that decimal. *)
Definition py_round (x : Float.t) (ndigits : nat) : Float.t :=
  match x with
  | Float.Finite q =>
      let scale := inject_Z (10 ^ Z.of_nat ndigits) in
      Float.round (inject_Z (round_half_even (q * scale)) / scale)
  | _ => x
  end.

(** The report dictionary. A skill without a catalog name is listed as
    [None]. *)
Module FitReport.
Record t := {
  resume_id : string;
  role : string;
  fit_score : Float.t;
  matched_skills : list (option string);
  missing_skills : list (option string)
}.
End FitReport.

(** [d[key]] on a dictionary kept as an association list. *)
Fixpoint dict_get {V} (d : list (string * V)) (key : string) : result V :=
  match d with
  | [] => Raise KeyError
  | (k, v) :: rest => if String.eqb k key then Ok v else dict_get rest key
  end.

Section Report.

Context `{SetOrder}.
Variable g : Globals.t.
Variable skills : list SkillPatterns.row.
Variable role_profiles : list (string * DataFrame).

Definition build_fit_report (resume_id resume_text role : string)
  : result FitReport.t :=
  rskills ← extract_resume_skills g skills resume_text;
  prof ← dict_get role_profiles role;
  score ← fit_score rskills prof (Float.Finite 2);
  rows ← columns prof;
  let matched :=
    Profile.skill_name <$> filter (λ r, Profile.skill_abr r ∈ rskills) rows in
  let missing :=
    Profile.skill_name
      <$> filter (λ r, (Profile.skill_abr r ∉ rskills) ∧ Profile.required r = true) rows in
  mret {| FitReport.resume_id := resume_id;
          FitReport.role := role;
          FitReport.fit_score := py_round score 2;
          FitReport.matched_skills := matched;
          FitReport.missing_skills := missing |}.

End Report.

(** ** A small data set *)

Module Demo.

Definition skills : list Skills.row :=
  [ {| Skills.skill_abr := "S1"; Skills.skill_name := "Python" |};
    {| Skills.skill_abr := "S2"; Skills.skill_name := "SQL" |} ].

Definition industries : list Industries.row :=
  [ {| Industries.industry_id := 1; Industries.industry_name := PStr "Data Analytics" |} ].

Definition job_industries : list JobIndustries.row :=
  (λ j, {| JobIndustries.job_id := j; JobIndustries.industry_id := 1 |})
    <$> [1; 2; 3; 4; 5]%Z.

Definition job_skills : list JobSkills.row :=
  [ {| JobSkills.job_id := 1; JobSkills.skill_abr := "S1" |};
    {| JobSkills.job_id := 2; JobSkills.skill_abr := "S1" |};
    {| JobSkills.job_id := 3; JobSkills.skill_abr := "S1" |};
    {| JobSkills.job_id := 4; JobSkills.skill_abr := "S2" |} ].

Definition profile : DataFrame :=
  build_role_skill_profile ROLE_KEYWORDS skills job_skills industries job_industries
    "DATA_ANALYST" 50 (3 # 10).

Definition profiles : list (string * DataFrame) :=
  role_profiles ROLE_KEYWORDS skills job_skills industries job_industries.

End Demo.

(** The same role with a single job whose link to S1 is recorded twice. *)
Module Dups.

Definition job_industries : list JobIndustries.row :=
  [ {| JobIndustries.job_id := 1; JobIndustries.industry_id := 1 |} ].

Definition job_skills : list JobSkills.row :=
  [ {| JobSkills.job_id := 1; JobSkills.skill_abr := "S1" |};
    {| JobSkills.job_id := 1; JobSkills.skill_abr := "S1" |} ].

End Dups.

(** A single job linked to S2, then to S1, and to a skill S9 that the
    catalog does not list. *)
Module Ties.

Definition job_industries : list JobIndustries.row :=
  [ {| JobIndustries.job_id := 1; JobIndustries.industry_id := 1 |} ].

Definition job_skills : list JobSkills.row :=
  [ {| JobSkills.job_id := 1; JobSkills.skill_abr := "S2" |};
    {| JobSkills.job_id := 1; JobSkills.skill_abr := "S1" |};
    {| JobSkills.job_id := 1; JobSkills.skill_abr := "S9" |} ].

Definition profile : DataFrame :=
  build_role_skill_profile ROLE_KEYWORDS Demo.skills job_skills Demo.industries
    job_industries "DATA_ANALYST" 50 (3 # 10).

End Ties.

(** A catalog with a skill whose name ends in punctuation. *)
Module Cpp.

Definition skills : list Skills.row :=
  [ {| Skills.skill_abr := "CPP"; Skills.skill_name := "C++" |};
    {| Skills.skill_abr := "S1"; Skills.skill_name := "Python" |} ].

End Cpp.

(** A catalog of six skills and a role with a single job that is linked to
    each of them: all six are required. *)
Module Six.

Definition names : list string := ["1"; "2"; "3"; "4"; "5"; "6"].

Definition skills : list Skills.row :=
  (λ n, {| Skills.skill_abr := "S" +:+ n; Skills.skill_name := "Skill " +:+ n |})
    <$> names.

Definition job_skills : list JobSkills.row :=
  (λ n, {| JobSkills.job_id := 1; JobSkills.skill_abr := "S" +:+ n |}) <$> names.

Definition profile : DataFrame :=
  build_role_skill_profile ROLE_KEYWORDS skills job_skills Demo.industries
    Dups.job_industries "DATA_ANALYST" 50 (3 # 10).

Definition resume : gset string := list_to_set (Skills.skill_abr <$> skills).

End Six.

(** A role of five jobs with two required skills and an optional one. *)
Module Mixed.

Definition skills : list Skills.row :=
  [ {| Skills.skill_abr := "S1"; Skills.skill_name := "Python" |};
    {| Skills.skill_abr := "S2"; Skills.skill_name := "SQL" |};
    {| Skills.skill_abr := "S3"; Skills.skill_name := "Excel" |} ].

Definition job_skills : list JobSkills.row :=
  [ {| JobSkills.job_id := 1; JobSkills.skill_abr := "S1" |};
    {| JobSkills.job_id := 2; JobSkills.skill_abr := "S1" |};
    {| JobSkills.job_id := 1; JobSkills.skill_abr := "S2" |};
    {| JobSkills.job_id := 2; JobSkills.skill_abr := "S2" |};
    {| JobSkills.job_id := 3; JobSkills.skill_abr := "S3" |} ].

Definition profile : DataFrame :=
  build_role_skill_profile ROLE_KEYWORDS skills job_skills Demo.industries
    Demo.job_industries "DATA_ANALYST" 50 (3 # 10).

Definition resume : gset string := {["S1"; "S2"; "S3"]}.

End Mixed.

(** ** Orders on profile rows *)

(** [a] may stand before [b] when sorting by [pct_jobs], descending. *)
Definition pct_desc (a b : Profile.row) : Prop :=
  (Profile.pct_jobs b <= Profile.pct_jobs a)%Q.

(** The same with ties broken by [skill_abr], ascending. *)
Definition pct_desc_abr_asc (a b : Profile.row) : Prop :=
  (Profile.pct_jobs b < Profile.pct_jobs a)%Q
  ∨ (Profile.pct_jobs a == Profile.pct_jobs b
     ∧ String.leb (Profile.skill_abr a) (Profile.skill_abr b) = true)%Q.

(** Two rows that differ at most in the [required] column. *)
Definition same_entry (r1 r2 : Profile.row) : Prop :=
  Profile.skill_abr r1 = Profile.skill_abr r2
  ∧ Profile.count r1 = Profile.count r2
  ∧ Profile.pct_jobs r1 = Profile.pct_jobs r2
  ∧ Profile.skill_name r1 = Profile.skill_name r2
  ∧ Profile.role r1 = Profile.role r2.

(** ** Step 6. The frame behind the gap plot *)

(** [df["col"]]: a frame without columns has no such key. *)
Definition getitem (df : DataFrame) : result (list Profile.row) :=
  match df with
  | NoColumns => Raise KeyError
  | Table rows => Ok rows
  end.

(** A profile row with the columns [in_resume] and [missing] of [plot_gap]. *)
Module Gap.
Record row := { entry : Profile.row; in_resume : bool; missing : bool }.
End Gap.

(** [df["in_resume"] = df["skill_abr"].isin(resume_skills)] and
    [df["missing"] = ~df["in_resume"]], for one row. *)
Definition gap_row (resume_skills : gset string) (r : Profile.row) : Gap.row :=
  let b := bool_decide (Profile.skill_abr r ∈ resume_skills) in
  {| Gap.entry := r; Gap.in_resume := b; Gap.missing := negb b |}.

(** The key [["required", "pct_jobs"]] of [y] is strictly greater than the
    one of [x]: [True] is above [False], and equal flags compare by
    [pct_jobs]. *)
Definition gap_gt (y x : Gap.row) : bool :=
  let ry := Profile.required (Gap.entry y) in
  let rx := Profile.required (Gap.entry x) in
  (ry && negb rx)
  || (Bool.eqb ry rx
      && negb (Qle_bool (Profile.pct_jobs (Gap.entry y)) (Profile.pct_jobs (Gap.entry x)))).

(** [df.head(n)]: the first [n] rows, or all but the last [-n] rows when [n]
    is negative. *)
Definition py_head {A} (n : Z) (l : list A) : list A :=
  if (0 <=? n)%Z then take (Z.to_nat n) l
  else take (length l - Z.to_nat (- n)) l.

(** The frame that [plot_gap] hands to the plotting calls: the profile with
    the two flags, sorted by [required] and [pct_jobs], both descending (a
    sort on several columns keeps rows with equal keys in their order), cut
    to [top_n] rows. *)
Definition plot_gap_frame (resume_skills : gset string) (role_profile : DataFrame)
    (top_n : Z) : result (list Gap.row) :=
  rows ← getitem role_profile;
  let df := gap_row resume_skills <$> rows in
  mret (py_head top_n (Pandas.sort_desc gap_gt df)).

(** [df["in_resume"].map({True:"green", False:"red"})], for one row. *)
Definition bar_color (row : Gap.row) : string :=
  if Gap.in_resume row then "green" else "red".

(** The order of the sort of [plot_gap]: [a] may stand before [b]. *)
Definition required_then_pct_desc (a b : Gap.row) : Prop :=
  (Profile.required (Gap.entry a) = true ∧ Profile.required (Gap.entry b) = false)
  ∨ (Profile.required (Gap.entry a) = Profile.required (Gap.entry b)
     ∧ (Profile.pct_jobs (Gap.entry b) <= Profile.pct_jobs (Gap.entry a))%Q).

(** ** Step 4. The skill name column of the loaded catalog *)

Module Loader.

(** The outcome of the column check of [load_core_tables]. *)
Inductive outcome (A : Type) :=
| Loaded (a : A)
| RaiseValueError.
Arguments Loaded {A} a.
Arguments RaiseValueError {A}.

(** [{c.lower(): c for c in columns}[key]]: of the columns with the same
    lower-cased name the last one stays in the dictionary. *)
Definition lower_cols_get (columns : list string) (key : string) : option string :=
  last (filter (λ c, lower c = key) columns).

(** [df.rename(columns={orig: "skill_name"})] on the column names. *)
Definition rename (orig : string) (columns : list string) : list string :=
  (λ c, if String.eqb c orig then "skill_name" else c) <$> columns.

(** The loop [for guess in ("skill", "name", "skillname")] with its [break]. *)
Fixpoint rename_first_guess (guesses columns : list string) : list string :=
  match guesses with
  | [] => columns
  | guess :: rest =>
      match lower_cols_get columns guess with
      | Some orig => rename orig columns
      | None => rename_first_guess rest columns
      end
  end.

(** The column names of [skills] after the renaming of [load_core_tables],
    or the [ValueError] of its check. *)
Definition skill_name_column (columns : list string) : outcome (list string) :=
  let renamed :=
    match lower_cols_get columns "skill_name" with
    | None => rename_first_guess ["skill"; "name"; "skillname"] columns
    | Some orig => rename orig columns
    end in
  if bool_decide ("skill_name" ∈ renamed) then Loaded renamed else RaiseValueError.

(** White space of [str.strip] among the ASCII characters. *)
Definition is_space (c : ascii) : bool := between 9 13 c || between 28 32 c.

Fixpoint lstrip (s : string) : string :=
  match s with
  | EmptyString => EmptyString
  | String c r => if is_space c then lstrip r else s
  end.

Fixpoint rstrip (s : string) : string :=
  match s with
  | EmptyString => EmptyString
  | String c r =>
      match rstrip r with
      | EmptyString => if is_space c then EmptyString else String c EmptyString
      | r' => String c r'
      end
  end.

(** [s.strip()] *)
Definition strip (s : string) : string := rstrip (lstrip s).

(** [skills["skill_name"].astype(str).str.strip()], for one cell. *)
Definition clean_skill_name (cell : pyobj) : string := strip (py_str cell).

End Loader.

(** * Properties *)

(** ** The functions on small inputs *)

Example assign_data_analytics :
  assign_role_from_industry ROLE_KEYWORDS (PStr "Data Analytics") = ["DATA_ANALYST"].
Proof. reflexivity. Qed.

Example assign_software :
  assign_role_from_industry ROLE_KEYWORDS (PStr "Software Development")
  = ["ML_ENGINEER"; "FRONTEND_DEV"].
Proof. reflexivity. Qed.

Example assign_it_services :
  assign_role_from_industry ROLE_KEYWORDS (PStr "IT Services and IT Consulting")
  = ["IT_SUPPORT"].
Proof. reflexivity. Qed.

Example assign_missing_name :
  assign_role_from_industry ROLE_KEYWORDS PNaN = [].
Proof. reflexivity. Qed.

Example pattern_of_two_words :
  make_pattern "Business Development" = "business|development".
Proof. reflexivity. Qed.

Example pattern_of_punctuation : make_pattern "+/-" = "|".
Proof. reflexivity. Qed.

Example search_whole_word :
  Regex.re_search "python" "i know python, and sql." = true
  ∧ Regex.re_search "python" "i know pythons" = false
  ∧ Regex.re_search "business|development" "web development" = true.
Proof. by vm_compute. Qed.

Example float_literals :
  Float.round (7 # 10) = Float.Finite (3152519739159347 # 4503599627370496)
  ∧ Float.round (2 # 3) = Float.Finite (6004799503160661 # 9007199254740992)
  ∧ Float.of_nat 6 = Float.Finite 6.
Proof. by vm_compute. Qed.

(** [0.1 + 0.2] is [0.30000000000000004], not [0.3]. *)
Example float_addition_rounds :
  Float.add (Float.round (1 # 10)) (Float.round (2 # 10))
  = Float.round (30000000000000004 # 100000000000000000)
  ∧ Float.add (Float.round (1 # 10)) (Float.round (2 # 10)) ≠ Float.round (3 # 10).
Proof. split; [by vm_compute | vm_compute; discriminate]. Qed.

Example float_limits :
  Float.round (inject_Z (2 ^ 53 + 1)) = Float.Finite (inject_Z (2 ^ 53))
  ∧ Float.round (inject_Z (2 ^ 1024)) = Float.Inf false
  ∧ Float.round (1 # 2 ^ 1075) = Float.Finite 0
  ∧ Float.mul (Float.Inf false) (Float.Finite 0) = Float.NaN
  ∧ Float.div (Float.Finite 1) (Float.Finite 0) = Raise ZeroDivisionError.
Proof. by vm_compute. Qed.

Example round_two_thirds : py_round (Float.round (2 # 3)) 2 = Float.round (67 # 100).
Proof. by vm_compute. Qed.

(** [round(0.125, 2)] is [0.12] and [round(0.375, 2)] is [0.38]; the double
    [0.025] lies above 1/40, so that [round(0.025, 2)] is [0.03]. *)
Example round_half_to_even :
  py_round (Float.round (1 # 8)) 2 = Float.round (12 # 100)
  ∧ py_round (Float.round (3 # 8)) 2 = Float.round (38 # 100)
  ∧ py_round (Float.round (1 # 40)) 2 = Float.round (3 # 100).
Proof. by vm_compute. Qed.

Example profile_of_role_without_links :
  build_role_skill_profile ROLE_KEYWORDS Demo.skills [] Demo.industries
    Dups.job_industries "DATA_ANALYST" 50 (3 # 10) = Table [].
Proof. by vm_compute. Qed.

(** ** Strings *)

Lemma app_nil_s (s : string) : "" +:+ s = s.
Proof. reflexivity. Qed.

Lemma app_cons_s (c : ascii) (s t : string) :
  String c s +:+ t = String c (s +:+ t).
Proof. reflexivity. Qed.

Lemma strip_prefix_Some p s r : strip_prefix p s = Some r ↔ s = p +:+ r.
Proof.
  revert s; induction p as [|a p IH]; intros s; simpl.
  - rewrite app_nil_s. split; [intros [= ->] | intros ->]; reflexivity.
  - rewrite app_cons_s. destruct s as [|b s].
    + split; discriminate.
    + destruct (Ascii.eqb_spec a b) as [->|Hne].
      * rewrite IH. split; [intros -> | intros [= ->]]; reflexivity.
      * split; [discriminate | intros [= <- _]; contradiction].
Qed.

Lemma strip_prefix_app p r : strip_prefix p (p +:+ r) = Some r.
Proof. by apply strip_prefix_Some. Qed.

Lemma str_in_spec kw s : str_in kw s = true ↔ is_substring kw s.
Proof.
  induction s as [|c s IH]; simpl.
  - destruct (strip_prefix kw "") as [r|] eqn:E.
    + split; [intros _ | done].
      apply strip_prefix_Some in E. by exists "", r.
    + split; [discriminate|].
      intros ([|a pre] & post & H); [|discriminate].
      rewrite app_nil_s in H.
      apply (proj2 (strip_prefix_Some _ _ _)) in H. congruence.
  - destruct (strip_prefix kw (String c s)) as [r|] eqn:E.
    + split; [intros _ | done].
      apply strip_prefix_Some in E. by exists "", r.
    + rewrite IH. split.
      * intros (pre & post & ->). by exists (String c pre), post.
      * intros ([|a pre] & post & H).
        -- rewrite app_nil_s in H.
           apply (proj2 (strip_prefix_Some _ _ _)) in H. congruence.
        -- rewrite app_cons_s in H. injection H as -> ->. by exists pre, post.
Qed.

(** ** The classifier *)

Lemma any_kw_in_spec name_l kws :
  any_kw_in name_l kws = true ↔ ∃ kw, kw ∈ kws ∧ is_substring kw name_l.
Proof.
  unfold any_kw_in. rewrite existsb_exists. split.
  - intros (kw & Hin & Hkw). exists kw.
    by rewrite list_elem_of_In, <- str_in_spec.
  - intros (kw & Hin & Hkw). exists kw.
    by rewrite <- list_elem_of_In, str_in_spec.
Qed.

Lemma elem_of_roles_loop name_l items role :
  role ∈ roles_loop name_l items ↔
  ∃ kws, (role, kws) ∈ items ∧ any_kw_in name_l kws = true.
Proof.
  induction items as [|[r kws] items IH]; simpl.
  - split; [by intros ?%elem_of_nil | by intros (? & ?%elem_of_nil & _)].
  - destruct (any_kw_in name_l kws) eqn:E.
    + rewrite elem_of_cons, IH. split.
      * intros [->|(kws' & Hin & Hany)].
        -- exists kws. split; [left | done].
        -- exists kws'. split; [by right | done].
      * intros (kws' & [[= -> ->]|Hin]%elem_of_cons & Hany); [by left|].
        right. by exists kws'.
    + rewrite IH. split.
      * intros (kws' & Hin & Hany). exists kws'. split; [by right | done].
      * intros (kws' & [[= -> ->]|Hin]%elem_of_cons & Hany); [congruence|].
        by exists kws'.
Qed.

(** C5. The roles assigned to an industry name (a string or any other cell
    value, converted with [str]) are exactly the configured role keys one of
    whose keywords is a substring of the lower-cased name. Hence every
    assigned role is a key of the configuration, and no role is assigned
    exactly when no keyword of any role occurs in the lower-cased name. *)
Theorem assign_role_from_industry_exact
    (cfg : list (string * list string)) (industry_name : pyobj) :
  let name_l := lower (py_str industry_name) in
  (∀ role, role ∈ assign_role_from_industry cfg industry_name ↔
           ∃ kws, (role, kws) ∈ cfg ∧ ∃ kw, kw ∈ kws ∧ is_substring kw name_l)
  ∧ (∀ role, role ∈ assign_role_from_industry cfg industry_name → role ∈ cfg.*1)
  ∧ (assign_role_from_industry cfg industry_name = [] ↔
     ∀ role kws kw, (role, kws) ∈ cfg → kw ∈ kws → ¬ is_substring kw name_l).
Proof.
  intros name_l. unfold assign_role_from_industry. fold name_l.
  assert (Hexact : ∀ role, role ∈ roles_loop name_l cfg ↔
            ∃ kws, (role, kws) ∈ cfg ∧ ∃ kw, kw ∈ kws ∧ is_substring kw name_l).
  { intros role. rewrite elem_of_roles_loop.
    by setoid_rewrite any_kw_in_spec. }
  split; [exact Hexact|]. split.
  - intros role (kws & Hin & _)%Hexact.
    apply list_elem_of_fmap. by exists (role, kws).
  - split.
    + intros Hnil role kws kw Hin Hkw Hsub.
      assert (Hr : role ∈ roles_loop name_l cfg) by (apply Hexact; eauto).
      rewrite Hnil in Hr. by apply elem_of_nil in Hr.
    + intros Hnone. destruct (roles_loop name_l cfg) as [|role l] eqn:E; [done|].
      assert (Hr : role ∈ role :: l) by left.
      apply Hexact in Hr as (kws & Hin & kw & Hkw & Hsub).
      by destruct (Hnone role kws kw).
Qed.

(** ** pandas operations *)

Section UniqueFacts.
Context `{EqDecision A}.
Implicit Types l : list A.

Lemma elem_of_unique l x : x ∈ Pandas.unique l ↔ x ∈ l.
Proof.
  induction l as [|y l IH]; simpl; [done|].
  rewrite !elem_of_cons, list_elem_of_filter, IH.
  destruct (decide (x = y)); tauto.
Qed.

Lemma NoDup_unique l : NoDup (Pandas.unique l).
Proof.
  induction l as [|y l IH]; simpl; [constructor|].
  apply NoDup_cons. split.
  - rewrite list_elem_of_filter. tauto.
  - by apply NoDup_filter.
Qed.

Lemma unique_nil_iff l : Pandas.unique l = [] ↔ l = [].
Proof. destruct l; simpl; split; congruence. Qed.

End UniqueFacts.

Section SortFacts.
Context {A : Type} (gt : A → A → bool).
Implicit Types l : list A.

Lemma sort_desc_cons x l :
  Pandas.sort_desc gt (x :: l) = Pandas.insert_desc gt x (Pandas.sort_desc gt l).
Proof. reflexivity. Qed.

Lemma insert_desc_Permutation x l : Pandas.insert_desc gt x l ≡ₚ x :: l.
Proof.
  induction l as [|y l IH]; simpl; [done|].
  destruct (gt y x); [|done].
  rewrite IH. apply perm_swap.
Qed.

Lemma sort_desc_Permutation l : Pandas.sort_desc gt l ≡ₚ l.
Proof.
  induction l as [|x l IH]; [done|].
  by rewrite sort_desc_cons, insert_desc_Permutation, IH.
Qed.

Lemma elem_of_sort_desc l x : x ∈ Pandas.sort_desc gt l ↔ x ∈ l.
Proof. by rewrite sort_desc_Permutation. Qed.

Lemma length_sort_desc l : length (Pandas.sort_desc gt l) = length l.
Proof. by rewrite sort_desc_Permutation. Qed.

Hypothesis gt_asym : ∀ x y, gt x y = true → gt y x = false.

Lemma insert_desc_Sorted x l :
  Sorted (Pandas.not_below gt) l → Sorted (Pandas.not_below gt) (Pandas.insert_desc gt x l).
Proof.
  induction 1 as [|y l Hl IH Hhd]; simpl.
  - by repeat constructor.
  - destruct (gt y x) eqn:E.
    + constructor; [done|].
      destruct Hhd as [|z l Hyz]; simpl.
      * constructor. by apply gt_asym.
      * destruct (gt z x); constructor; [done | by apply gt_asym].
    + constructor; [by constructor | by constructor].
Qed.

Lemma sort_desc_Sorted l : Sorted (Pandas.not_below gt) (Pandas.sort_desc gt l).
Proof.
  induction l as [|x l IH]; [constructor|].
  rewrite sort_desc_cons. by apply insert_desc_Sorted.
Qed.

End SortFacts.

(** Sorting commutes with a map that preserves the comparison. *)
Lemma sort_desc_fmap {A B} (f : A → B) (gtA : A → A → bool) (gtB : B → B → bool) l :
  (∀ x y, gtB (f x) (f y) = gtA x y) →
  Pandas.sort_desc gtB (f <$> l) = f <$> Pandas.sort_desc gtA l.
Proof.
  intros Hgt. induction l as [|x l IH]; [done|].
  rewrite fmap_cons, !sort_desc_cons, IH. generalize (Pandas.sort_desc gtA l) as k.
  induction k as [|y k IHk]; [done|].
  rewrite fmap_cons. simpl. rewrite Hgt.
  destruct (gtA y x); [by rewrite IHk | done].
Qed.

Lemma elem_of_value_counts l k c :
  (k, c) ∈ Pandas.value_counts l ↔ k ∈ l ∧ c = length (filter (λ v, v = k) l).
Proof.
  unfold Pandas.value_counts.
  rewrite elem_of_sort_desc, list_elem_of_fmap. split.
  - intros (k' & Heq & Hk). simpl in Heq. injection Heq as -> ->.
    split; [by apply elem_of_unique | done].
  - intros [Hk ->]. exists k. by rewrite elem_of_unique.
Qed.

Lemma value_counts_nil : Pandas.value_counts [] = [].
Proof. reflexivity. Qed.

Lemma elem_of_merge_row skills f m :
  m ∈ Pandas.merge_row skills f ↔
  m.1 = f ∧
  ((m.2 = None ∧ ∀ s, s ∈ skills → Skills.skill_abr s ≠ f.1.1)
   ∨ ∃ s, s ∈ skills ∧ Skills.skill_abr s = f.1.1 ∧ m.2 = Some (Skills.skill_name s)).
Proof.
  unfold Pandas.merge_row.
  destruct (filter _ skills) as [|s0 hits] eqn:E.
  - rewrite list_elem_of_singleton. split.
    + intros ->. split; [done|]. left. split; [done|].
      intros s Hs Habr.
      assert (Hin : s ∈ filter (λ s, Skills.skill_abr s = f.1.1) skills)
        by by apply list_elem_of_filter.
      rewrite E in Hin. by apply elem_of_nil in Hin.
    + destruct m as [f' name]; simpl. intros [-> [[-> _]|(s & Hs & Habr & _)]]; [done|].
      assert (Hin : s ∈ filter (λ s, Skills.skill_abr s = f.1.1) skills)
        by by apply list_elem_of_filter.
      rewrite E in Hin. by apply elem_of_nil in Hin.
  - rewrite <- E, list_elem_of_fmap. split.
    + intros (s & -> & [Habr Hs]%list_elem_of_filter). split; [done|].
      right. by exists s.
    + destruct m as [f' name]; simpl. intros [-> [[_ Hno]|(s & Hs & Habr & ->)]].
      * assert (Hin : s0 ∈ filter (λ s, Skills.skill_abr s = f.1.1) skills)
          by (rewrite E; left).
        apply list_elem_of_filter in Hin as [Habr Hs]. by destruct (Hno s0).
      * exists s. split; [done|]. by apply list_elem_of_filter.
Qed.

Lemma elem_of_merge_left skills freq m :
  m ∈ Pandas.merge_left skills freq ↔
  m.1 ∈ freq ∧
  ((m.2 = None ∧ ∀ s, s ∈ skills → Skills.skill_abr s ≠ m.1.1.1)
   ∨ ∃ s, s ∈ skills ∧ Skills.skill_abr s = m.1.1.1 ∧ m.2 = Some (Skills.skill_name s)).
Proof.
  unfold Pandas.merge_left. rewrite list_elem_of_bind. split.
  - intros (f & [<- H]%elem_of_merge_row & Hf). done.
  - intros [Hf H]. exists m.1. split; [|done]. by apply elem_of_merge_row.
Qed.

(** ** The profile builder *)

Lemma length_filter_fmap {A B} (f : A → B) (P : B → Prop) `{∀ y, Decision (P y)} l :
  length (filter P (f <$> l)) = length (filter (λ x, P (f x)) l).
Proof.
  induction l as [|x l IH]; [done|].
  rewrite fmap_cons, !filter_cons. destruct (decide (P (f x))); simpl; lia.
Qed.

Lemma Qinject_nat_pos n : (0 < n)%nat → (0 < inject_Z (Z.of_nat n))%Q.
Proof. intros Hn. change 0%Q with (inject_Z 0). rewrite <- Zlt_Qlt. lia. Qed.

Lemma Qinject_nat_le n k : (n ≤ k)%nat → (inject_Z (Z.of_nat n) <= inject_Z (Z.of_nat k))%Q.
Proof. intros Hn. rewrite <- Zle_Qle. lia. Qed.

Section ProfileFacts.

Variable role_keywords : list (string * list string).
Variable skills : list Skills.row.
Variable job_skills : list JobSkills.row.
Variable industries : list Industries.row.
Variable job_industries : list JobIndustries.row.

Local Abbreviation job_ids := (role_job_ids role_keywords industries job_industries).
Local Abbreviation links := (role_links role_keywords job_skills industries job_industries).
Local Abbreviation occ := (occurrences role_keywords job_skills industries job_industries).
Local Abbreviation merged :=
  (merged_freq role_keywords skills job_skills industries job_industries).
Local Abbreviation build :=
  (build_role_skill_profile role_keywords skills job_skills industries job_industries).


Lemma build_no_jobs role m p : job_ids role = [] → build role m p = NoColumns.
Proof. intros H. unfold build_role_skill_profile. by rewrite H. Qed.

Lemma build_rows role m p :
  job_ids role ≠ [] →
  build role m p =
    Table (profile_row role p <$> Pandas.sort_desc merged_gt (merged role)).
Proof.
  intros H. unfold build_role_skill_profile.
  destruct (job_ids role) as [|j js] eqn:E; [done|]. simpl.
  rewrite <- E. f_equal. apply sort_desc_fmap.
  by intros [[[??]?]?] [[[??]?]?].
Qed.

Lemma elem_of_merged role abr cnt pct name :
  (abr, cnt, pct, name) ∈ merged role ↔
  (∃ l, l ∈ links role ∧ JobSkills.skill_abr l = abr)
  ∧ cnt = occ role abr
  ∧ pct = (inject_Z (Z.of_nat cnt) / Q_of_len (job_ids role))%Q
  ∧ catalog_name skills abr name.
Proof.
  unfold merged_freq. rewrite elem_of_merge_left, list_elem_of_fmap. simpl.
  fold (catalog_name skills abr name). split.
  - intros [([k c] & Heq & Hkc) Hname]. simpl in Heq. injection Heq as -> -> ->.
    apply elem_of_value_counts in Hkc as [Hk ->].
    apply list_elem_of_fmap in Hk as (l & -> & Hl).
    split; [by exists l|]. split; [|done].
    unfold occurrences. by rewrite length_filter_fmap.
  - intros ((l & Hl & <-) & -> & -> & Hname). split; [|done].
    exists (JobSkills.skill_abr l, occ role (JobSkills.skill_abr l)).
    split; [done|]. apply elem_of_value_counts. split.
    + by apply list_elem_of_fmap_2.
    + unfold occurrences. by rewrite length_filter_fmap.
Qed.

(** The rows of a built profile, column by column. *)
Lemma elem_of_profile role m p r :
  r ∈ frame_rows (build role m p) ↔
  job_ids role ≠ []
  ∧ (∃ l, l ∈ links role ∧ JobSkills.skill_abr l = Profile.skill_abr r)
  ∧ Profile.count r = occ role (Profile.skill_abr r)
  ∧ Profile.pct_jobs r =
      (inject_Z (Z.of_nat (Profile.count r)) / Q_of_len (job_ids role))%Q
  ∧ catalog_name skills (Profile.skill_abr r) (Profile.skill_name r)
  ∧ Profile.required r = Qle_bool p (Profile.pct_jobs r)
  ∧ Profile.role r = role.
Proof.
  destruct (decide (job_ids role = [])) as [Hnil|Hne].
  - rewrite build_no_jobs by done. simpl. rewrite elem_of_nil. tauto.
  - rewrite build_rows by done. simpl.
    rewrite list_elem_of_fmap. setoid_rewrite elem_of_sort_desc. split.
    + intros ([[[abr cnt] pct] name] & -> & Hm). simpl.
      apply elem_of_merged in Hm as (Hl & Hc & Hp & Hn). by subst.
    + intros (_ & Hl & Hc & Hp & Hn & Hr & Hrole).
      exists (Profile.skill_abr r, Profile.count r, Profile.pct_jobs r, Profile.skill_name r).
      split.
      * destruct r; simpl in *. by subst.
      * apply elem_of_merged. by rewrite <- Hc.
Qed.

Lemma occurrences_pos role l :
  l ∈ links role → (0 < occ role (JobSkills.skill_abr l))%nat.
Proof.
  intros Hl. unfold occurrences.
  assert (Hin : l ∈ filter (λ r, JobSkills.skill_abr r = JobSkills.skill_abr l) (links role))
    by by apply list_elem_of_filter.
  destruct (filter _ (links role)); [by apply elem_of_nil in Hin | simpl; lia].
Qed.

(** Without duplicate links a skill is counted at most once per job. *)
Lemma occurrences_le_jobs role abr :
  NoDup job_skills → (occ role abr ≤ length (job_ids role))%nat.
Proof.
  intros Hnd. unfold occurrences.
  set (L := filter (λ r, JobSkills.skill_abr r = abr) (links role)).
  rewrite <- (length_fmap JobSkills.job_id L).
  apply submseteq_length, NoDup_submseteq.
  - apply NoDup_fmap_2_strong.
    + intros [j1 a1] [j2 a2] [H1 _]%list_elem_of_filter [H2 _]%list_elem_of_filter.
      simpl in *. congruence.
    + unfold L, role_links. by do 2 apply NoDup_filter.
  - intros j (l & -> & [_ Hl]%list_elem_of_filter)%list_elem_of_fmap.
    unfold role_links in Hl. by apply list_elem_of_filter in Hl as [Hj _].
Qed.

End ProfileFacts.

Lemma Sorted_weaken {A} (R1 R2 : relation A) l :
  (∀ x y, R1 x y → R2 x y) → Sorted R1 l → Sorted R2 l.
Proof.
  intros HR. induction 1 as [|x l Hl IH Hhd]; constructor; [done|].
  destruct Hhd; constructor; auto.
Qed.

Lemma pct_gt_asym x y : pct_gt x y = true → pct_gt y x = false.
Proof.
  unfold pct_gt. rewrite negb_true_iff, negb_false_iff, Qle_bool_iff.
  intros Hxy. destruct (Qlt_le_dec (Profile.pct_jobs x) (Profile.pct_jobs y)) as [Hlt|Hle].
  - apply Qlt_le_weak, Qle_bool_iff in Hlt. congruence.
  - done.
Qed.

Lemma not_below_pct_desc a b : Pandas.not_below pct_gt a b → pct_desc a b.
Proof.
  unfold Pandas.not_below, pct_gt, pct_desc.
  by rewrite negb_false_iff, Qle_bool_iff.
Qed.

#[local] Instance pct_desc_trans : Transitive pct_desc.
Proof. intros a b c Hab Hbc. unfold pct_desc in *. by eapply Qle_trans. Qed.

Section ProfileClaims.

Variable role_keywords : list (string * list string).
Variable skills : list Skills.row.
Variable job_skills : list JobSkills.row.
Variable industries : list Industries.row.
Variable job_industries : list JobIndustries.row.

(** C1, as amended. Every entry of a built profile has
    [pct_jobs = count / number of distinct jobs of the role], which is
    strictly positive; it is at most 1 when the job-skill links hold no
    row twice. (Repeated rows are counted as occurrences and can push it
    above 1.) *)
Theorem pct_jobs_positive_and_bounded_without_duplicates role m p r :
  r ∈ frame_rows
        (build_role_skill_profile role_keywords skills job_skills industries
           job_industries role m p) →
  Profile.pct_jobs r =
    (inject_Z (Z.of_nat (Profile.count r))
     / Q_of_len (role_job_ids role_keywords industries job_industries role))%Q
  ∧ (0 < Profile.pct_jobs r)%Q
  ∧ (NoDup job_skills → (Profile.pct_jobs r <= 1)%Q).
Proof.
  intros (Hne & (l & Hl & Habr) & Hc & Hp & _)%elem_of_profile.
  set (ids := role_job_ids role_keywords industries job_industries role) in *.
  assert (Hlen : (0 < Q_of_len ids)%Q).
  { apply Qinject_nat_pos. destruct ids; [done | simpl; lia]. }
  split; [done|]. rewrite Hp, Hc. split.
  - apply Qlt_shift_div_l; [done|]. rewrite Qmult_0_l.
    apply Qinject_nat_pos. rewrite <- Habr. by apply occurrences_pos.
  - intros Hnd. apply Qle_shift_div_r; [done|]. rewrite Qmult_1_l.
    by apply Qinject_nat_le, occurrences_le_jobs.
Qed.

(** C6. An entry of a built profile is required exactly when its [pct_jobs]
    reaches the threshold; and with a higher threshold the profile has the
    same entries in the same order, none of which is required unless it was
    required with the lower threshold. *)
Theorem required_iff_threshold_monotone role m p1 p2 :
  (p1 <= p2)%Q →
  (∀ r, r ∈ frame_rows
              (build_role_skill_profile role_keywords skills job_skills industries
                 job_industries role m p1) →
        (Profile.required r = true ↔ (p1 <= Profile.pct_jobs r)%Q))
  ∧ Forall2 (λ r1 r2, same_entry r1 r2
                      ∧ (Profile.required r2 = true → Profile.required r1 = true))
      (frame_rows
         (build_role_skill_profile role_keywords skills job_skills industries
            job_industries role m p1))
      (frame_rows
         (build_role_skill_profile role_keywords skills job_skills industries
            job_industries role m p2)).
Proof.
  intros Hp. split.
  - intros r (_ & _ & _ & _ & _ & Hr & _)%elem_of_profile.
    by rewrite Hr, Qle_bool_iff.
  - destruct (decide (role_job_ids role_keywords industries job_industries role = []))
      as [Hnil|Hne].
    + rewrite !build_no_jobs by done. constructor.
    + rewrite !build_rows by done. simpl.
      apply Forall2_fmap, Forall_Forall2_diag, Forall_forall.
      intros [[[abr cnt] pct] name] _. simpl. split; [by repeat split|].
      rewrite !Qle_bool_iff. intros H. by eapply Qle_trans.
Qed.

(** C7, as amended. Every built profile is sorted by [pct_jobs], descending.
    (Entries with equal [pct_jobs] are not ordered by [skill_abr].) *)
Theorem profile_sorted_by_pct_jobs_desc role m p :
  StronglySorted pct_desc
    (frame_rows
       (build_role_skill_profile role_keywords skills job_skills industries
          job_industries role m p)).
Proof.
  apply Sorted_StronglySorted; [apply _|].
  apply (Sorted_weaken (Pandas.not_below pct_gt)); [apply not_below_pct_desc|].
  unfold build_role_skill_profile.
  destruct (length _ =? 0)%nat; simpl; [constructor|].
  apply sort_desc_Sorted, pct_gt_asym.
Qed.

(** C8. A skill named by a job-skill link of one of the role's jobs and
    missing from the catalog has an entry in the built profile, and every
    entry of this skill has no name and a count of at least one. *)
Theorem unmatched_skill_carried_with_null_name role m p l :
  l ∈ job_skills →
  JobSkills.job_id l ∈ role_job_ids role_keywords industries job_industries role →
  (∀ s, s ∈ skills → Skills.skill_abr s ≠ JobSkills.skill_abr l) →
  (∃ r, r ∈ frame_rows
              (build_role_skill_profile role_keywords skills job_skills industries
                 job_industries role m p)
        ∧ Profile.skill_abr r = JobSkills.skill_abr l
        ∧ Profile.skill_name r = None)
  ∧ (∀ r, r ∈ frame_rows
                (build_role_skill_profile role_keywords skills job_skills industries
                   job_industries role m p) →
          Profile.skill_abr r = JobSkills.skill_abr l →
          Profile.skill_name r = None ∧ (1 ≤ Profile.count r)%nat).
Proof.
  intros Hl Hj Hnone.
  assert (Hlink : l ∈ role_links role_keywords job_skills industries job_industries role)
    by by apply list_elem_of_filter.
  split.
  - set (c := occurrences role_keywords job_skills industries job_industries role
                (JobSkills.skill_abr l)).
    set (pct := (inject_Z (Z.of_nat c)
                 / Q_of_len (role_job_ids role_keywords industries job_industries role))%Q).
    exists {| Profile.skill_abr := JobSkills.skill_abr l; Profile.count := c;
              Profile.pct_jobs := pct; Profile.skill_name := None;
              Profile.required := Qle_bool p pct; Profile.role := role |}.
    split; [|done]. apply elem_of_profile. simpl.
    split; [by intros E; rewrite E in Hj; apply elem_of_nil in Hj|].
    split; [by exists l|]. do 2 (split; [done|]).
    split; [by left | done].
  - intros r (_ & _ & Hc & _ & Hname & _)%elem_of_profile Habr.
    rewrite Habr in Hname, Hc. split.
    + destruct Hname as [[-> _]|(s & Hs & Hsabr & _)]; [done|].
      by destruct (Hnone s).
    + rewrite Hc. by apply occurrences_pos in Hlink.
Qed.

(** C9. [min_jobs] has no effect on the profile: any two values of it give
    the same profile for the same role and threshold. *)
Theorem min_jobs_has_no_effect role m1 m2 p :
  build_role_skill_profile role_keywords skills job_skills industries job_industries
    role m1 p
  = build_role_skill_profile role_keywords skills job_skills industries job_industries
      role m2 p.
Proof. reflexivity. Qed.

End ProfileClaims.

(** C1, the claim as stated fails: one job of the role linked twice to the
    same skill gives that skill [pct_jobs = 2]. *)
Lemma pct_jobs_exceeds_one_with_duplicates :
  ¬ (∀ r,
       r ∈ frame_rows
             (build_role_skill_profile ROLE_KEYWORDS Demo.skills Dups.job_skills
                Demo.industries Dups.job_industries "DATA_ANALYST" 50 (3 # 10)) →
       (0 <= Profile.pct_jobs r <= 1)%Q).
Proof.
  intros H.
  destruct (H {| Profile.skill_abr := "S1"; Profile.count := 2;
                 Profile.pct_jobs := 2; Profile.skill_name := Some "Python";
                 Profile.required := true; Profile.role := "DATA_ANALYST" |})
    as [_ Hle].
  - vm_compute. left.
  - unfold Qle in Hle. simpl in Hle. lia.
Qed.

Lemma pct_jobs_positive_and_bounded_without_duplicates_witness :
  let r := {| Profile.skill_abr := "S1"; Profile.count := 3;
              Profile.pct_jobs := 3 # 5; Profile.skill_name := Some "Python";
              Profile.required := true; Profile.role := "DATA_ANALYST" |} in
  r ∈ frame_rows Demo.profile
  ∧ NoDup Demo.job_skills
  ∧ (0 < Profile.pct_jobs r)%Q ∧ (Profile.pct_jobs r <= 1)%Q.
Proof.
  intros r.
  assert (Hin : r ∈ frame_rows Demo.profile) by (vm_compute; left).
  assert (Hnd : NoDup Demo.job_skills).
  { apply (bool_decide_unpack (NoDup Demo.job_skills)). vm_compute. exact I. }
  destruct (pct_jobs_positive_and_bounded_without_duplicates
              ROLE_KEYWORDS Demo.skills Demo.job_skills Demo.industries
              Demo.job_industries "DATA_ANALYST" 50 (3 # 10) r Hin) as (_ & Hpos & Hle).
  auto.
Defined.

Lemma required_iff_threshold_monotone_witness :
  (3 # 10 <= 1 # 2)%Q
  ∧ Forall2 (λ r1 r2, same_entry r1 r2
                      ∧ (Profile.required r2 = true → Profile.required r1 = true))
      (frame_rows Demo.profile)
      (frame_rows
         (build_role_skill_profile ROLE_KEYWORDS Demo.skills Demo.job_skills
            Demo.industries Demo.job_industries "DATA_ANALYST" 50 (1 # 2))).
Proof.
  assert (Hp : (3 # 10 <= 1 # 2)%Q) by (unfold Qle; simpl; lia).
  split; [exact Hp|].
  exact (proj2 (required_iff_threshold_monotone
                  ROLE_KEYWORDS Demo.skills Demo.job_skills Demo.industries
                  Demo.job_industries "DATA_ANALYST" 50 (3 # 10) (1 # 2) Hp)).
Defined.

(** C7, the claim as stated fails: S2 and S1 occur in one job each, and the
    profile lists S2 before S1. *)
Lemma profile_ties_not_sorted_by_skill_abr :
  ¬ Sorted pct_desc_abr_asc
      (frame_rows
         (build_role_skill_profile ROLE_KEYWORDS Demo.skills Ties.job_skills
            Demo.industries Ties.job_industries "DATA_ANALYST" 50 (3 # 10))).
Proof.
  intros H.
  remember (frame_rows _) as rows eqn:E. vm_compute in E. subst rows.
  inversion H as [|? ? _ Hhd]; subst.
  inversion Hhd as [|? ? Hrel]; subst.
  destruct Hrel as [Hlt|[_ Hleb]].
  - unfold Qlt in Hlt. simpl in Hlt. lia.
  - vm_compute in Hleb. discriminate.
Qed.

Lemma unmatched_skill_carried_with_null_name_witness :
  let l := {| JobSkills.job_id := 1; JobSkills.skill_abr := "S9" |} in
  l ∈ Ties.job_skills
  ∧ JobSkills.job_id l ∈ role_job_ids ROLE_KEYWORDS Demo.industries Ties.job_industries
                           "DATA_ANALYST"
  ∧ (∀ s, s ∈ Demo.skills → Skills.skill_abr s ≠ "S9")
  ∧ ∃ r, r ∈ frame_rows Ties.profile
         ∧ Profile.skill_abr r = "S9" ∧ Profile.skill_name r = None.
Proof.
  intros l.
  assert (Hl : l ∈ Ties.job_skills) by (vm_compute; do 2 right; left).
  assert (Hj : JobSkills.job_id l ∈
               role_job_ids ROLE_KEYWORDS Demo.industries Ties.job_industries "DATA_ANALYST")
    by (vm_compute; left).
  assert (Hs : ∀ s, s ∈ Demo.skills → Skills.skill_abr s ≠ JobSkills.skill_abr l).
  { intros s Hin. unfold Demo.skills in Hin.
    apply elem_of_cons in Hin as [->|Hin]; [discriminate|].
    apply elem_of_cons in Hin as [->|Hin]; [discriminate|].
    by apply elem_of_nil in Hin. }
  do 3 (split; [done|]).
  exact (proj1 (unmatched_skill_carried_with_null_name
                  ROLE_KEYWORDS Demo.skills Ties.job_skills Demo.industries
                  Ties.job_industries "DATA_ANALYST" 50 (3 # 10) l Hl Hj Hs)).
Defined.

(** ** The extractor *)

Lemma lower_alnum_is_word c : is_alnum c = true → Regex.is_word (lower_ascii c) = true.
Proof. destruct c as [[] [] [] [] [] [] [] []]; vm_compute; congruence. Qed.

Lemma str_any_lower_word text :
  str_any is_alnum text = true → str_any Regex.is_word (lower text) = true.
Proof.
  induction text as [|c r IH]; simpl; [done|].
  intros [Hc|Hr]%orb_true_iff.
  - by rewrite lower_alnum_is_word.
  - rewrite IH by done. apply orb_true_r.
Qed.

(** With an empty alternative, [\b(...)\b] matches at the first word
    boundary of the text. *)
Lemma search_from_empty_alt alts prev text :
  "" ∈ alts →
  Regex.is_word_at prev = false →
  str_any Regex.is_word text = true →
  Regex.search_from alts prev text = true.
Proof.
  intros Halt. revert prev. induction text as [|c r IH]; intros prev Hprev; simpl; [done|].
  destruct (Regex.is_word c) eqn:Hc.
  - intros _. apply orb_true_iff. left. apply andb_true_iff. split.
    + unfold Regex.word_boundary. simpl. by rewrite Hprev, Hc.
    + apply existsb_exists. exists "". split; [by apply list_elem_of_In|].
      unfold Regex.alt_matches, Regex.word_boundary. simpl. by rewrite Hprev, Hc.
  - simpl. intros Hr. apply orb_true_iff. right. apply IH; [|done]. simpl. done.
Qed.

(** The search succeeds exactly when the text splits into [pre], an
    alternative [t] and [post] with a word boundary on both sides of [t]. *)
Lemma search_from_spec alts prev text :
  Regex.search_from alts prev text = true ↔
  ∃ pre t post,
    text = pre +:+ t +:+ post ∧ t ∈ alts
    ∧ Regex.word_boundary (Regex.last_char prev pre) (Regex.first_char (t +:+ post)) = true
    ∧ Regex.word_boundary (Regex.last_char prev (pre +:+ t)) (Regex.first_char post) = true.
Proof.
  revert prev. induction text as [|c r IH]; intros prev.
  - simpl. rewrite orb_false_r, andb_true_iff, existsb_exists. split.
    + intros (Hb & t & Ht%list_elem_of_In & Hm). unfold Regex.alt_matches in Hm.
      destruct (strip_prefix t "") as [rest|] eqn:E; [|done].
      apply strip_prefix_Some in E. exists "", t, rest.
      rewrite !app_nil_s. rewrite <- E. by simpl.
    + intros ([|a pre] & t & post & E & Ht & Hb1 & Hb2); [|done].
      rewrite app_nil_s in E, Hb2. simpl in Hb1. rewrite <- E in Hb1.
      split; [done|]. exists t. split; [by apply list_elem_of_In|].
      unfold Regex.alt_matches.
      by rewrite (proj2 (strip_prefix_Some t "" post) E).
  - simpl. rewrite orb_true_iff, andb_true_iff, existsb_exists, IH. split.
    + intros [(Hb & t & Ht%list_elem_of_In & Hm)|(pre & t & post & -> & Ht & Hb1 & Hb2)].
      * unfold Regex.alt_matches in Hm.
        destruct (strip_prefix t (String c r)) as [rest|] eqn:E; [|done].
        apply strip_prefix_Some in E. exists "", t, rest.
        rewrite !app_nil_s. rewrite <- E. by simpl.
      * exists (String c pre), t, post. by rewrite !app_cons_s.
    + intros ([|a pre] & t & post & E & Ht & Hb1 & Hb2).
      * left. rewrite app_nil_s in E, Hb2. simpl in Hb1. rewrite <- E in Hb1.
        split; [done|]. exists t. split; [by apply list_elem_of_In|].
        unfold Regex.alt_matches.
        by rewrite (proj2 (strip_prefix_Some t (String c r) post) E).
      * right. rewrite !app_cons_s in E. injection E as <- ->.
        rewrite app_cons_s in Hb2. by exists pre, t, post.
Qed.

(** X13. A derived pattern is written with lower-case letters, digits and the
    separator only, so that none of its characters is special in a regular
    expression other than the alternation. *)
Lemma make_pattern_alphabet name :
  str_any (λ c, negb (Regex.is_alnum_lower c || Ascii.eqb c "|")) (make_pattern name)
  = false.
Proof.
  unfold make_pattern.
  enough (H : ∀ s in_run,
            str_any (λ c, negb (Regex.is_alnum_lower c || Ascii.eqb c "|"))
                    (Regex.replace_runs in_run s) = false) by apply H.
  induction s as [|c s IH]; intros in_run; [done|].
  simpl. destruct (Regex.is_alnum_lower c) eqn:Hc.
  - simpl. by rewrite Hc, IH.
  - destruct in_run; [apply IH|]. simpl. by rewrite IH.
Qed.

Lemma exists_elem_of_cons {A} (Q : A → Prop) x l :
  (∃ y, y ∈ x :: l ∧ Q y) ↔ Q x ∨ ∃ y, y ∈ l ∧ Q y.
Proof.
  setoid_rewrite elem_of_cons. split.
  - intros (y & [->|Hin] & HQ); [by left | right; by exists y].
  - intros [HQ|(y & Hin & HQ)]; [exists x | exists y]; auto.
Qed.

Lemma usable_eqb row :
  String.eqb (SkillPatterns.pattern row) "" || String.eqb (SkillPatterns.pattern row) "|"
  = bool_decide (¬ usable row).
Proof.
  unfold usable.
  destruct (String.eqb_spec (SkillPatterns.pattern row) "") as [He|He];
    destruct (String.eqb_spec (SkillPatterns.pattern row) "|") as [Hb|Hb]; simpl;
    symmetry; first [apply bool_decide_eq_true; tauto | apply bool_decide_eq_false; tauto].
Qed.

Lemma extract_loop_cons g text row rows found :
  extract_loop g text (row :: rows) found =
  if decide (usable row)
  then search ← lookup_re g;
       extract_loop g text rows
         (if (search : string → string → bool) (SkillPatterns.pattern row) text
          then {[SkillPatterns.skill_abr row]} ∪ found else found)
  else extract_loop g text rows found.
Proof.
  simpl. rewrite usable_eqb. destruct (decide (usable row)) as [Hu|Hu].
  - rewrite bool_decide_eq_false_2 by tauto.
    destruct (lookup_re g) as [search|e]; [|done]. simpl.
    by destruct (search (SkillPatterns.pattern row) text).
  - by rewrite bool_decide_eq_true_2.
Qed.

(** Without [re] the loop stops at the first row that passes the guard. *)
Lemma extract_loop_unbound g text rows found :
  Globals.re g = None →
  extract_loop g text rows found
  = if decide (Exists usable rows) then Raise NameError else Ok found.
Proof.
  intros Hg. induction rows as [|row rows IH].
  - destruct (decide (Exists usable [])) as [He|He]; [|done]. by apply Exists_nil in He.
  - rewrite extract_loop_cons, IH. unfold lookup_re. rewrite Hg.
    destruct (decide (Exists usable (row :: rows))) as [He|He];
      destruct (decide (usable row)) as [Hu|Hu];
      destruct (decide (Exists usable rows)) as [Hr|Hr]; try done.
    + apply Exists_cons in He. tauto.
    + destruct He. by left.
    + destruct He. by left.
    + destruct He. by right.
Qed.

(** With [re] bound the loop returns the skills of the rows that pass the
    guard and whose pattern is found. *)
Lemma extract_loop_bound g search text rows found :
  Globals.re g = Some search →
  ∃ out, extract_loop g text rows found = Ok out
         ∧ ∀ abr, abr ∈ out ↔
                  abr ∈ found
                  ∨ ∃ row, row ∈ rows ∧ SkillPatterns.skill_abr row = abr
                           ∧ usable row
                           ∧ search (SkillPatterns.pattern row) text = true.
Proof.
  intros Hg. revert found. induction rows as [|row rows IH]; intros found.
  - exists found. split; [done|]. intros abr.
    split; [by left|]. intros [?|(? & ?%elem_of_nil & _)]; done.
  - rewrite extract_loop_cons. setoid_rewrite exists_elem_of_cons.
    destruct (decide (usable row)) as [Hu|Hu].
    + unfold lookup_re. rewrite Hg. simpl.
      destruct (search (SkillPatterns.pattern row) text) eqn:Hre.
      * destruct (IH ({[SkillPatterns.skill_abr row]} ∪ found)) as (out & -> & Hout).
        exists out. split; [done|]. intros abr.
        rewrite Hout, elem_of_union, elem_of_singleton. intuition congruence.
      * destruct (IH found) as (out & -> & Hout).
        exists out. split; [done|]. intros abr. rewrite Hout. intuition congruence.
    + destruct (IH found) as (out & -> & Hout).
      exists out. split; [done|]. intros abr. rewrite Hout. intuition congruence.
Qed.

Lemma extract_unbound g skills resume_text :
  Globals.re g = None →
  extract_resume_skills g skills resume_text
  = if decide (Exists usable skills) then Raise NameError else Ok ∅.
Proof. apply extract_loop_unbound. Qed.

(** With [re] bound, the skills found in a resume are those of the catalog
    rows whose pattern passes the guard and is found in the lower-cased
    text. *)
Lemma extract_bound g search skills resume_text :
  Globals.re g = Some search →
  ∃ found, extract_resume_skills g skills resume_text = Ok found
           ∧ ∀ abr, abr ∈ found ↔
                    ∃ row, row ∈ skills ∧ SkillPatterns.skill_abr row = abr
                           ∧ usable row
                           ∧ search (SkillPatterns.pattern row) (lower resume_text) = true.
Proof.
  intros Hg. unfold extract_resume_skills.
  destruct (extract_loop_bound g search (lower resume_text) skills ∅ Hg) as (out & -> & Hout).
  exists out. split; [done|]. intros abr. rewrite Hout.
  split; [intros [?%elem_of_empty|?]; done | by right].
Qed.

Lemma alnum_lower_of_lower c : Regex.is_alnum_lower (lower_ascii c) = is_alnum c.
Proof. by destruct c as [[] [] [] [] [] [] [] []]. Qed.

Lemma split_alt_nonempty pat : Regex.split_alt pat ≠ [].
Proof.
  destruct pat as [|c r]; simpl; [done|].
  destruct (Ascii.eqb c "|"); [done|]. by destruct (Regex.split_alt r).
Qed.

Lemma split_alt_snoc_sep pat :
  Regex.split_alt (pat +:+ "|") = (Regex.split_alt pat ++ [""])%list.
Proof.
  induction pat as [|c r IH]; [done|].
  rewrite app_cons_s. simpl. rewrite IH.
  destruct (Ascii.eqb c "|"); [done|].
  pose proof (split_alt_nonempty r). by destruct (Regex.split_alt r).
Qed.

Lemma replace_runs_false_nil s : Regex.replace_runs false s = "" → s = "".
Proof. destruct s as [|c r]; simpl; [done|]. by destruct (Regex.is_alnum_lower c). Qed.

(** A text that ends outside [[a-z0-9]] is replaced by nothing or by
    a pattern that ends with a separator. *)
Lemma replace_runs_ends s c :
  ∀ prev in_run,
    s ≠ "" → Regex.last_char prev s = Some c → Regex.is_alnum_lower c = false →
    Regex.replace_runs in_run s = ""
    ∨ ∃ pat, Regex.replace_runs in_run s = pat +:+ "|".
Proof.
  induction s as [|a r IH]; intros prev in_run Hne Hlast Hc; [done|].
  simpl in Hlast. destruct (decide (r = "")) as [->|Hr].
  - simpl in Hlast. injection Hlast as ->. simpl. rewrite Hc.
    destruct in_run; [by left | right; by exists ""].
  - simpl. destruct (Regex.is_alnum_lower a).
    + right. destruct (IH (Some a) false Hr Hlast Hc) as [E|[pat E]].
      * by apply replace_runs_false_nil in E.
      * exists (String a pat). by rewrite E.
    + destruct in_run; [by apply (IH (Some a))|].
      right. destruct (IH (Some a) true Hr Hlast Hc) as [E|[pat E]].
      * exists "". by rewrite E.
      * exists (String "|" pat). by rewrite E.
Qed.

Lemma last_char_lower s prev :
  Regex.last_char (lower_ascii <$> prev) (lower s)
  = lower_ascii <$> Regex.last_char prev s.
Proof.
  revert prev. induction s as [|c r IH]; intros prev; [done|].
  simpl. apply (IH (Some c)).
Qed.

(** The pattern derived from a name that begins or ends with a character
    other than a letter or a digit is not empty and has an empty
    alternative. *)
Lemma empty_alt_of_edge name :
  non_alnum_at_edge name →
  make_pattern name ≠ "" ∧ "" ∈ Regex.split_alt (make_pattern name).
Proof.
  intros (c & Hedge & Hc). rewrite <- alnum_lower_of_lower in Hc.
  unfold make_pattern. destruct Hedge as [Hfirst|Hlast].
  - destruct name as [|a r]; [done|]. injection Hfirst as ->. simpl.
    rewrite Hc. split; [done|]. simpl. left.
  - assert (Hname : lower name ≠ "") by (destruct name; [done | simpl; done]).
    assert (Hl : Regex.last_char None (lower name) = Some (lower_ascii c)).
    { change None with (lower_ascii <$> (None : option ascii)).
      by rewrite last_char_lower, Hlast. }
    split; [by intros ?%replace_runs_false_nil|].
    destruct (replace_runs_ends _ _ None false Hname Hl Hc) as [E|[pat E]].
    + by apply replace_runs_false_nil in E.
    + rewrite E, split_alt_snoc_sep. apply elem_of_app. right. left.
Qed.

(** C10, the code at a skill whose name begins or ends with a character
    other than a letter or a digit (such as C++, with the pattern [c|]):
    unless the pattern is the lone separator it passes the guard and has an
    empty alternative, which is found in every text with an alphanumeric
    character. In the notebook as written the search is never made: the
    name [re] is not bound, and the extractor raises [NameError] for every
    resume. Once [re] is bound to the standard module, the extractor
    reports the skill for every resume with an alphanumeric character. *)
Theorem empty_alternative_is_not_searched_without_re (skills : list Skills.row) s :
  s ∈ skills →
  non_alnum_at_edge (Skills.skill_name s) →
  make_pattern (Skills.skill_name s) ≠ "|" →
  usable (add_pattern s)
  ∧ "" ∈ Regex.split_alt (make_pattern (Skills.skill_name s))
  ∧ (∀ resume_text,
       extract_resume_skills notebook_globals (with_pattern skills) resume_text
       = Raise NameError)
  ∧ (∀ resume_text,
       str_any is_alnum resume_text = true →
       Regex.re_search (make_pattern (Skills.skill_name s)) (lower resume_text) = true
       ∧ ∃ found,
           extract_resume_skills globals_with_re (with_pattern skills) resume_text
           = Ok found
           ∧ Skills.skill_abr s ∈ found).
Proof.
  intros Hs [Hne Hempty]%empty_alt_of_edge Hnb.
  assert (Hu : usable (add_pattern s)) by done.
  assert (Hrow : add_pattern s ∈ with_pattern skills) by by apply list_elem_of_fmap_2.
  split; [done|]. split; [done|]. split.
  - intros resume_text. rewrite extract_unbound by done.
    destruct (decide (Exists usable (with_pattern skills))) as [He|He]; [done|].
    destruct He. apply Exists_exists. by exists (add_pattern s).
  - intros resume_text Htext.
    assert (Hre : Regex.re_search (make_pattern (Skills.skill_name s)) (lower resume_text)
                  = true).
    { apply search_from_empty_alt; [done | done | by apply str_any_lower_word]. }
    split; [done|].
    destruct (extract_bound globals_with_re Regex.re_search (with_pattern skills)
                resume_text eq_refl) as (found & Hfound & Hin).
    exists found. split; [done|]. apply Hin. by exists (add_pattern s).
Qed.

Lemma empty_alternative_is_not_searched_without_re_witness :
  let s := {| Skills.skill_abr := "CPP"; Skills.skill_name := "C++" |} in
  s ∈ Cpp.skills
  ∧ non_alnum_at_edge "C++"
  ∧ make_pattern "C++" = "c|"
  ∧ Regex.split_alt "c|" = ["c"; ""]
  ∧ extract_resume_skills notebook_globals (with_pattern Cpp.skills) "I know Java"
    = Raise NameError
  ∧ Regex.re_search "c|" (lower "I know Java") = true
  ∧ extract_resume_skills globals_with_re (with_pattern Cpp.skills) "I know Java"
    = Ok {["CPP"]}.
Proof.
  intros s.
  assert (Hs : s ∈ Cpp.skills) by left.
  assert (Hedge : non_alnum_at_edge (Skills.skill_name s)).
  { exists "+"%char. split; [right; reflexivity | reflexivity]. }
  assert (Hnb : make_pattern (Skills.skill_name s) ≠ "|") by (vm_compute; discriminate).
  do 4 (split; [done|]).
  split; [|by vm_compute].
  exact (proj1 (proj2 (proj2 (empty_alternative_is_not_searched_without_re
                                 Cpp.skills s Hs Hedge Hnb))) "I know Java").
Defined.

(** ** Floats *)

Section RoundHalfEven.
Local Open Scope Q_scope.

#[global] Instance round_half_even_comp : Proper (Qeq ==> eq) round_half_even.
Proof.
  intros x y E. unfold round_half_even.
  rewrite (Qfloor_comp _ _ E).
  assert (E' : x - inject_Z (Qfloor y) == y - inject_Z (Qfloor y)) by (rewrite E; reflexivity).
  by rewrite (Qcompare_comp _ _ E' _ _ (Qeq_refl (1 # 2))).
Qed.

Lemma round_half_even_near x :
  (inject_Z (round_half_even x) - (1 # 2) <= x
   ∧ x <= inject_Z (round_half_even x) + (1 # 2))%Q.
Proof.
  unfold round_half_even.
  pose proof (Qfloor_le x) as Hlo. pose proof (Qlt_floor x) as Hhi.
  rewrite inject_Z_plus in Hhi. change (inject_Z 1) with 1%Q in Hhi.
  set (f := Qfloor x) in *.
  destruct (x - inject_Z f ?= 1 # 2)%Q eqn:Hc.
  - apply Qeq_alt in Hc.
    destruct (Z.even f); [|rewrite inject_Z_plus; change (inject_Z 1) with 1%Q]; lra.
  - apply Qlt_alt in Hc. lra.
  - apply Qgt_alt in Hc. rewrite inject_Z_plus. change (inject_Z 1) with 1%Q. lra.
Qed.

Lemma round_half_even_Z z : round_half_even (inject_Z z) = z.
Proof.
  unfold round_half_even. rewrite Qfloor_Z.
  assert (E : inject_Z z - inject_Z z == 0) by ring.
  by rewrite (Qcompare_comp _ _ E _ _ (Qeq_refl (1 # 2))).
Qed.

Lemma inject_Z_lt_succ a b : inject_Z a < inject_Z b + 1 → (a <= b)%Z.
Proof.
  intros H. change 1 with (inject_Z 1) in H. rewrite <- inject_Z_plus, <- Zlt_Qlt in H. lia.
Qed.

Lemma round_half_even_mono x y : x <= y → (round_half_even x <= round_half_even y)%Z.
Proof.
  intros Hxy.
  destruct (round_half_even_near x) as [Hx _].
  destruct (round_half_even_near y) as [_ Hy].
  destruct (Qle_lt_or_eq _ _ Hxy) as [Hlt|Heq]; [|by rewrite Heq].
  apply inject_Z_lt_succ. lra.
Qed.

End RoundHalfEven.

Section Pow2.
Import Float.
Local Open Scope Q_scope.

Lemma two_neq_0 : ¬ (2 == 0).
Proof. discriminate. Qed.

Lemma pow2_pos e : 0 < pow2 e.
Proof. by apply Qpower_0_lt. Qed.

Lemma pow2_add a b : pow2 (a + b) == pow2 a * pow2 b.
Proof. apply Qpower_plus, two_neq_0. Qed.

Lemma pow2_sub a b : pow2 (a - b) == pow2 a / pow2 b.
Proof. apply Qpower_minus, two_neq_0. Qed.

Lemma pow2_le a b : (a <= b)%Z → pow2 a <= pow2 b.
Proof. intros H. by apply Qpower_le_compat_l. Qed.

Lemma pow2_lt a b : (a < b)%Z → pow2 a < pow2 b.
Proof. intros H. by apply Qpower_lt_compat_l. Qed.

Lemma pow2_lt_inv a b : pow2 a < pow2 b → (a < b)%Z.
Proof. intros H. by apply (Qpower_lt_compat_l_inv 2). Qed.

Lemma pow2_Z n : (0 <= n)%Z → pow2 n == inject_Z (2 ^ n).
Proof. intros H. unfold pow2. by rewrite Zpower_Qpower. Qed.

Lemma pow2_0 : pow2 0 == 1.
Proof. reflexivity. Qed.

(** [ilog2 x] is the exponent of the binade of [x]. *)
Lemma ilog2_spec x : 0 < x → pow2 (ilog2 x) <= x ∧ x < pow2 (ilog2 x + 1).
Proof.
  intros Hx. destruct x as [n d]. unfold ilog2. simpl Qnum. simpl Qden.
  assert (Hn : (0 < n)%Z) by (unfold Qlt in Hx; simpl in Hx; lia).
  pose proof (Z.log2_spec n Hn) as [Hn1 Hn2].
  pose proof (Z.log2_spec (Zpos d) (Pos2Z.is_pos d)) as [Hd1 Hd2].
  pose proof (Z.log2_nonneg n) as Hln. pose proof (Z.log2_nonneg (Zpos d)) as Hld.
  set (ln := Z.log2 n) in *. set (ld := Z.log2 (Zpos d)) in *.
  assert (Hq : n # d == inject_Z n / inject_Z (Zpos d)) by apply Qmake_Qdiv.
  assert (Hdpos : 0 < inject_Z (Zpos d)) by (change 0 with (inject_Z 0); rewrite <- Zlt_Qlt; lia).
  assert (Hup : n # d < pow2 (ln - ld + 1)).
  { replace (ln - ld + 1)%Z with ((ln + 1) - ld)%Z by lia.
    rewrite pow2_sub, Hq, !pow2_Z by lia.
    apply Qlt_shift_div_l; [change 0 with (inject_Z 0); rewrite <- Zlt_Qlt; lia|].
    unfold Qdiv. rewrite <- Qmult_assoc, (Qmult_comm (/ _)), Qmult_assoc.
    apply Qlt_shift_div_r; [done|].
    rewrite <- !inject_Z_mult, <- Zlt_Qlt. nia. }
  assert (Hlo : pow2 (ln - ld - 1) <= n # d).
  { replace (ln - ld - 1)%Z with (ln - (ld + 1))%Z by lia.
    rewrite pow2_sub, Hq, !pow2_Z by lia.
    apply Qle_shift_div_r; [change 0 with (inject_Z 0); rewrite <- Zlt_Qlt; lia|].
    unfold Qdiv. rewrite <- Qmult_assoc, (Qmult_comm (/ _)), Qmult_assoc.
    apply Qle_shift_div_l; [done|].
    rewrite <- !inject_Z_mult, <- Zle_Qle. nia. }
  destruct (Qle_bool (pow2 (ln - ld)) (n # d)) eqn:Hb.
  - apply Qle_bool_iff in Hb. done.
  - split; [done|]. replace (ln - ld - 1 + 1)%Z with (ln - ld)%Z by lia.
    apply Qnot_le_lt. intros H%Qle_bool_iff. congruence.
Qed.

Lemma ilog2_mono x y : 0 < x → x <= y → (ilog2 x <= ilog2 y)%Z.
Proof.
  intros Hx Hxy.
  destruct (ilog2_spec x Hx) as [Hlo _].
  destruct (ilog2_spec y (Qlt_le_trans _ _ _ Hx Hxy)) as [_ Hhi].
  assert (ilog2 x < ilog2 y + 1)%Z; [|lia].
  apply pow2_lt_inv. eapply Qle_lt_trans; [done|]. by eapply Qle_lt_trans.
Qed.

Lemma ilog2_lt x k : 0 < x → x < pow2 k → (ilog2 x < k)%Z.
Proof.
  intros Hx Hk. destruct (ilog2_spec x Hx) as [Hlo _].
  apply pow2_lt_inv. by eapply Qle_lt_trans.
Qed.

End Pow2.

Section Rounding.
Import Float.
Local Open Scope Q_scope.

Lemma Qred_inject_Z z : Qred (inject_Z z) = inject_Z z.
Proof.
  unfold Qred, inject_Z.
  pose proof (Z.ggcd_gcd z 1) as Hg. pose proof (Z.ggcd_correct_divisors z 1) as Hd.
  destruct (Z.ggcd z 1) as [g [a b]]. simpl in *.
  rewrite Z.gcd_1_r in Hg. subst g. destruct Hd as [-> Hb].
  assert (b = 1%Z) as -> by lia. by destruct a.
Qed.

Lemma round_pos_nonneg x : 0 < x → 0 <= round_pos x.
Proof.
  intros Hx. unfold round_pos.
  apply Qmult_le_0_compat; [|apply Qlt_le_weak, pow2_pos].
  change 0 with (inject_Z 0). rewrite <- Zle_Qle.
  rewrite <- (round_half_even_Z 0). apply round_half_even_mono.
  apply Qle_shift_div_l; [apply pow2_pos|]. rewrite Qmult_0_l. by apply Qlt_le_weak.
Qed.

(** A number with a significand of at most 53 bits is not moved. *)
Lemma round_pos_exact x m e :
  (0 < m < 2 ^ prec)%Z → (emin <= e)%Z → x == inject_Z m * pow2 e → round_pos x == x.
Proof.
  intros [Hm0 Hm] He E.
  assert (Hpe := pow2_pos e).
  assert (Hm0' : 0 < inject_Z m) by (change 0 with (inject_Z 0); by rewrite <- Zlt_Qlt).
  assert (Hx : 0 < x) by (rewrite E; nra).
  assert (Hlt : x < pow2 (prec + e)).
  { rewrite E, pow2_add, (pow2_Z prec) by done.
    apply Qmult_lt_compat_r; [done|]. by rewrite <- Zlt_Qlt. }
  pose proof (ilog2_lt x _ Hx Hlt) as Hl.
  unfold round_pos. set (u := ulp_exp x).
  assert (Hu : (u <= e)%Z) by (unfold u, ulp_exp, prec in *; lia).
  assert (Hdiv : x / pow2 u == inject_Z (m * 2 ^ (e - u))).
  { rewrite inject_Z_mult, <- pow2_Z, pow2_sub, E by lia.
    unfold Qdiv. ring. }
  rewrite Hdiv, round_half_even_Z, inject_Z_mult, <- pow2_Z, pow2_sub, E by lia.
  field. apply Qnot_eq_sym, Qlt_not_eq, pow2_pos.
Qed.

Lemma round_pos_mono x y : 0 < x → x <= y → round_pos x <= round_pos y.
Proof.
  intros Hx Hxy.
  assert (Hy : 0 < y) by by eapply Qlt_le_trans.
  pose proof (ilog2_mono x y Hx Hxy) as Hl.
  unfold round_pos. set (ux := ulp_exp x). set (uy := ulp_exp y).
  assert (Hu : (ux <= uy)%Z) by (unfold ux, uy, ulp_exp; lia).
  destruct (Z.eq_dec ux uy) as [Eu|Hne].
  - rewrite Eu. apply Qmult_le_compat_r; [|apply Qlt_le_weak, pow2_pos].
    rewrite <- Zle_Qle. apply round_half_even_mono.
    unfold Qdiv. apply Qmult_le_compat_r; [done|].
    apply Qinv_le_0_compat, Qlt_le_weak, pow2_pos.
  - set (K := ilog2 y).
    assert (HK : uy = (K - (prec - 1))%Z) by (unfold ux, uy, K, ulp_exp in *; lia).
    assert (Hlx : (ilog2 x + 1 <= K)%Z) by (unfold ux, uy, K, ulp_exp in *; lia).
    destruct (ilog2_spec x Hx) as [_ Hxhi]. destruct (ilog2_spec y Hy) as [Hylo _].
    fold K in Hylo.
    assert (HxK : x <= pow2 K).
    { apply Qlt_le_weak. eapply Qlt_le_trans; [done|]. by apply pow2_le. }
    assert (HKx : (0 <= K - ux)%Z) by (unfold prec in *; lia).
    apply (Qle_trans _ (pow2 K)).
    + assert (Hr : (round_half_even (x / pow2 ux) <= 2 ^ (K - ux))%Z).
      { rewrite <- (round_half_even_Z (2 ^ (K - ux))). apply round_half_even_mono.
        rewrite <- pow2_Z, pow2_sub by done.
        unfold Qdiv. apply Qmult_le_compat_r; [done|].
        apply Qinv_le_0_compat, Qlt_le_weak, pow2_pos. }
      rewrite Zle_Qle, <- pow2_Z, pow2_sub in Hr by done.
      apply (Qmult_le_compat_r _ _ (pow2 ux)) in Hr; [|apply Qlt_le_weak, pow2_pos].
      eapply Qle_trans; [exact Hr|]. apply Qle_lteq. right.
      field. apply Qnot_eq_sym, Qlt_not_eq, pow2_pos.
    + assert (Hr : (2 ^ (prec - 1) <= round_half_even (y / pow2 uy))%Z).
      { rewrite <- (round_half_even_Z (2 ^ (prec - 1))). apply round_half_even_mono.
        rewrite <- pow2_Z by done.
        apply Qle_shift_div_l; [apply pow2_pos|].
        rewrite <- pow2_add. by replace (prec - 1 + uy)%Z with K by lia. }
      rewrite Zle_Qle, <- pow2_Z in Hr by done.
      apply (Qmult_le_compat_r _ _ (pow2 uy)) in Hr; [|apply Qlt_le_weak, pow2_pos].
      eapply Qle_trans; [|exact Hr]. rewrite <- pow2_add.
      replace (prec - 1 + uy)%Z with K by lia. apply Qle_refl.
Qed.

Lemma round_proper x y : x == y → round x = round y.
Proof. intros E. unfold round. by rewrite (Qred_complete _ _ E). Qed.

Lemma round_positive x :
  0 < x →
  round x = if Qle_bool (pow2 emax) (round_pos (Qred x)) then Inf false
            else Finite (Qred (round_pos (Qred x))).
Proof.
  intros Hx. unfold round.
  assert (H : (Qred x ?= 0) = Gt) by (apply Qgt_alt; by rewrite Qred_correct).
  by rewrite H.
Qed.

(** Below a finite double the rounded value is finite and stays below. *)
Lemma round_le_exact x hi m e :
  0 <= x → x <= hi →
  (0 < m < 2 ^ prec)%Z → (emin <= e)%Z → hi == inject_Z m * pow2 e → hi < pow2 emax →
  ∃ r, round x = Finite r ∧ 0 <= r ∧ r <= hi.
Proof.
  intros Hx0 Hxhi Hm He E Hmax.
  destruct (Qle_lt_or_eq _ _ Hx0) as [Hx|Hx].
  - rewrite (round_positive x Hx).
    assert (Hx' : 0 < Qred x) by by rewrite Qred_correct.
    assert (Hr : round_pos (Qred x) <= hi).
    { rewrite <- (round_pos_exact hi m e Hm He E). apply round_pos_mono; [done|].
      by rewrite Qred_correct. }
    destruct (Qle_bool _ _) eqn:Hb.
    + apply Qle_bool_iff in Hb. lra.
    + eexists. split; [done|]. rewrite Qred_correct. split; [by apply round_pos_nonneg | done].
  - exists 0. rewrite <- (round_proper 0 x Hx). split; [done|]. split; [apply Qle_refl|lra].
Qed.

Lemma round_Z z : (0 <= z <= 2 ^ prec)%Z → round (inject_Z z) = Finite (inject_Z z).
Proof.
  intros [Hz0 Hz].
  destruct (Z.eq_dec z 0%Z) as [->|Hne]; [done|].
  assert (Hpos : 0 < inject_Z z) by (change 0 with (inject_Z 0); rewrite <- Zlt_Qlt; lia).
  assert (Hexact : round_pos (inject_Z z) == inject_Z z).
  { destruct (Z.eq_dec z (2 ^ prec)%Z) as [->|Hne'].
    - apply (round_pos_exact _ 1 prec); [done | done |]. rewrite <- pow2_Z by done. ring.
    - apply (round_pos_exact _ z 0); [lia | done |]. rewrite pow2_0. ring. }
  rewrite (round_positive _ Hpos), Qred_inject_Z.
  destruct (Qle_bool _ _) eqn:Hb.
  - apply Qle_bool_iff in Hb. rewrite Hexact in Hb.
    assert (Hlt : inject_Z z < pow2 emax); [|lra].
    eapply Qle_lt_trans; [rewrite Zle_Qle in Hz; exact Hz|].
    rewrite <- pow2_Z by done. by apply pow2_lt.
  - by rewrite (Qred_complete _ _ Hexact), Qred_inject_Z.
Qed.

(** Rounding keeps the order of non-negative numbers. *)
Lemma round_mono x y rx ry :
  0 <= x → x <= y → round x = Finite rx → round y = Finite ry → rx <= ry.
Proof.
  intros Hx0 Hxy Hrx Hry.
  assert (Hy0 : 0 <= y) by by eapply Qle_trans.
  assert (Hry0 : 0 <= ry).
  { destruct (Qle_lt_or_eq _ _ Hy0) as [Hy|Hy].
    - rewrite (round_positive y Hy) in Hry.
      destruct (Qle_bool _ _); [done|]. injection Hry as <-. rewrite Qred_correct.
      apply round_pos_nonneg. by rewrite Qred_correct.
    - rewrite <- (round_proper 0 y Hy) in Hry. injection Hry as <-. apply Qle_refl. }
  destruct (Qle_lt_or_eq _ _ Hx0) as [Hx|Hx].
  - assert (Hy : 0 < y) by by eapply Qlt_le_trans.
    rewrite (round_positive x Hx) in Hrx. rewrite (round_positive y Hy) in Hry.
    destruct (Qle_bool _ (round_pos (Qred x))); [done|].
    destruct (Qle_bool _ (round_pos (Qred y))); [done|].
    injection Hrx as <-. injection Hry as <-. apply Qred_le.
    apply round_pos_mono; [by rewrite Qred_correct | by apply Qred_le].
  - rewrite <- (round_proper 0 x Hx) in Hrx. by injection Hrx as <-.
Qed.

End Rounding.

(** The quotient of two whole numbers [n <= d] of at most 53 bits rounds
    to a double between 0 and 1, which is 1 only for [n = d]. *)
Lemma round_quotient n d :
  (0 ≤ n ≤ d)%Z → (0 < d ≤ 2 ^ 53)%Z →
  ∃ q, Float.round (inject_Z n / inject_Z d) = Float.Finite q
       ∧ (0 <= q <= 1)%Q ∧ ((q == 1)%Q ↔ n = d).
Proof.
  intros [Hn0 Hnd] [Hd0 Hd].
  assert (Hdpos : (0 < inject_Z d)%Q)
    by (change 0%Q with (inject_Z 0); by rewrite <- Zlt_Qlt).
  assert (Hx0 : (0 <= inject_Z n / inject_Z d)%Q).
  { apply Qle_shift_div_l; [done|]. rewrite Qmult_0_l.
    change 0%Q with (inject_Z 0). by rewrite <- Zle_Qle. }
  destruct (Z.eq_dec n d) as [->|Hne].
  - exists 1%Q. split; [|split; [by split|done]].
    rewrite (round_proper _ 1); [done|].
    field. intros E. rewrite E in Hdpos. by apply Qlt_irrefl in Hdpos.
  - set (hi := (9007199254740991 # 9007199254740992)%Q).
    assert (Hhi : (inject_Z n / inject_Z d <= hi)%Q).
    { apply Qle_shift_div_r; [done|].
      unfold hi, Qle, Qmult, inject_Z. simpl Qnum. simpl Qden.
      change (2 ^ 53)%Z with 9007199254740992%Z in Hd. nia. }
    destruct (round_le_exact _ hi 9007199254740991 (-53) Hx0 Hhi)
      as (q & Hq & Hq0 & Hq1); [done | done | done | done |].
    exists q. split; [done|]. split; [split; [done|]|].
    + eapply Qle_trans; [exact Hq1|]. done.
    + split; [|done]. intros E. rewrite E in Hq1. by apply Qle_not_lt in Hq1.
Qed.

(** ** The fit score *)

Lemma elem_of_required_set rows abr :
  abr ∈ required_set rows ↔
  ∃ r, r ∈ rows ∧ Profile.skill_abr r = abr ∧ Profile.required r = true.
Proof.
  unfold required_set. rewrite elem_of_list_to_set, list_elem_of_fmap. split.
  - intros (r & -> & [Hr Hin]%list_elem_of_filter). by exists r.
  - intros (r & Hin & <- & Hr). exists r. split; [done|]. by apply list_elem_of_filter.
Qed.

Lemma elem_of_optional_set rows abr :
  abr ∈ optional_set rows ↔
  ∃ r, r ∈ rows ∧ Profile.skill_abr r = abr ∧ Profile.required r = false.
Proof.
  unfold optional_set. rewrite elem_of_list_to_set, list_elem_of_fmap. split.
  - intros (r & -> & [Hr Hin]%list_elem_of_filter). by exists r.
  - intros (r & Hin & <- & Hr). exists r. split; [done|]. by apply list_elem_of_filter.
Qed.

Lemma size_list_to_set_le (l : list string) :
  (size (list_to_set l : gset string) ≤ length l)%nat.
Proof.
  induction l as [|x l IH].
  { rewrite list_to_set_nil, size_empty. done. }
  rewrite list_to_set_cons, size_union_alt, size_singleton. simpl.
  assert (size (list_to_set l ∖ {[x]} : gset string) ≤ size (list_to_set l : gset string))%nat
    by (apply subseteq_size; set_solver).
  lia.
Qed.

Lemma length_filter_required rows :
  (length (filter (λ r, Profile.required r = true) rows)
   + length (filter (λ r, Profile.required r = false) rows) = length rows)%nat.
Proof.
  induction rows as [|r rows IH]; [done|].
  rewrite !filter_cons. destruct (Profile.required r) eqn:Hr.
  - rewrite decide_True, decide_False by done. simpl. lia.
  - rewrite decide_False, decide_True by done. simpl. lia.
Qed.

Lemma profile_sizes_le_length rows :
  (size (required_set rows) + size (optional_set rows) ≤ length rows)%nat.
Proof.
  unfold required_set, optional_set.
  pose proof (size_list_to_set_le
                (Profile.skill_abr <$> filter (λ r, Profile.required r = true) rows)).
  pose proof (size_list_to_set_le
                (Profile.skill_abr <$> filter (λ r, Profile.required r = false) rows)).
  pose proof (length_filter_required rows). rewrite !length_fmap in *. lia.
Qed.

(** *** The whole numbers behind the score *)

Lemma size_insert (s : string) (Y : gset string) : s ∉ Y → size ({[s]} ∪ Y) = S (size Y).
Proof. intros Hs. rewrite size_union by set_solver. by rewrite size_singleton. Qed.

Section HitFacts.

Variables (req opt : gset string) (k : Z).

Lemma weighted_hits_empty : weighted_hits req opt k ∅ = 0%Z.
Proof.
  unfold weighted_hits.
  replace (∅ ∩ req) with (∅ : gset string) by set_solver.
  replace (∅ ∩ (opt ∖ req)) with (∅ : gset string) by set_solver.
  rewrite size_empty. lia.
Qed.

Lemma weighted_hits_insert s (X : gset string) :
  s ∉ X →
  weighted_hits req opt k ({[s]} ∪ X)
  = ((if decide (s ∈ req) then k else if decide (s ∈ opt) then 1 else 0)
     + weighted_hits req opt k X)%Z.
Proof.
  intros Hs. unfold weighted_hits.
  destruct (decide (s ∈ req)) as [Hreq|Hreq]; [|destruct (decide (s ∈ opt)) as [Hopt|Hopt]].
  - replace (({[s]} ∪ X) ∩ req) with ({[s]} ∪ X ∩ req) by set_solver.
    replace (({[s]} ∪ X) ∩ (opt ∖ req)) with (X ∩ (opt ∖ req)) by set_solver.
    rewrite size_insert by set_solver. lia.
  - replace (({[s]} ∪ X) ∩ req) with (X ∩ req) by set_solver.
    replace (({[s]} ∪ X) ∩ (opt ∖ req)) with ({[s]} ∪ X ∩ (opt ∖ req)) by set_solver.
    rewrite size_insert by set_solver. lia.
  - replace (({[s]} ∪ X) ∩ req) with (X ∩ req) by set_solver.
    replace (({[s]} ∪ X) ∩ (opt ∖ req)) with (X ∩ (opt ∖ req)) by set_solver.
    lia.
Qed.

Lemma weighted_hits_mono rs1 rs2 :
  (0 ≤ k)%Z → rs1 ⊆ rs2 →
  (weighted_hits req opt k rs1 ≤ weighted_hits req opt k rs2)%Z.
Proof.
  intros Hk Hsub. unfold weighted_hits.
  assert (size (rs1 ∩ req) ≤ size (rs2 ∩ req))%nat by (apply subseteq_size; set_solver).
  assert (size (rs1 ∩ (opt ∖ req)) ≤ size (rs2 ∩ (opt ∖ req)))%nat
    by (apply subseteq_size; set_solver).
  nia.
Qed.

Lemma weighted_hits_bounds rs :
  (0 ≤ k)%Z →
  (0 ≤ weighted_hits req opt k rs ≤ weighted_total req opt k)%Z.
Proof.
  intros Hk. unfold weighted_hits, weighted_total.
  assert (size (rs ∩ req) ≤ size req)%nat by (apply subseteq_size; set_solver).
  assert (size (rs ∩ (opt ∖ req)) ≤ size opt)%nat by (apply subseteq_size; set_solver).
  nia.
Qed.

Lemma weighted_hits_restrict rs :
  weighted_hits req opt k (rs ∩ (req ∪ opt)) = weighted_hits req opt k rs.
Proof.
  unfold weighted_hits.
  replace (rs ∩ (req ∪ opt) ∩ req) with (rs ∩ req) by set_solver.
  by replace (rs ∩ (req ∪ opt) ∩ (opt ∖ req)) with (rs ∩ (opt ∖ req)) by set_solver.
Qed.

(** The numerator reaches the denominator only if the resume has every
    required and every optional skill. *)
Lemma weighted_hits_full_inv rs :
  (0 < k)%Z →
  weighted_hits req opt k rs = weighted_total req opt k →
  req ⊆ rs ∧ opt ⊆ rs.
Proof.
  intros Hk. unfold weighted_hits, weighted_total. intros Heq.
  assert (Ha : (size (rs ∩ req) ≤ size req)%nat) by (apply subseteq_size; set_solver).
  assert (Hb : (size (rs ∩ (opt ∖ req)) ≤ size opt)%nat)
    by (apply subseteq_size; set_solver).
  assert (Hb' : size (rs ∩ (opt ∖ req)) = size opt) by nia.
  assert (Ha' : size (rs ∩ req) = size req) by nia.
  assert (E1 : rs ∩ req = req) by (apply set_subseteq_size_eq; [set_solver | lia]).
  assert (E2 : rs ∩ (opt ∖ req) = opt) by (apply set_subseteq_size_eq; [set_solver | lia]).
  split; set_solver.
Qed.

Lemma weighted_hits_full rs :
  req ## opt → req ⊆ rs → opt ⊆ rs →
  weighted_hits req opt k rs = weighted_total req opt k.
Proof.
  intros Hdisj Hreq Hopt. unfold weighted_hits, weighted_total.
  replace (rs ∩ req) with req by set_solver.
  by replace (rs ∩ (opt ∖ req)) with opt by set_solver.
Qed.

End HitFacts.

Lemma weighted_total_le k rows :
  whole_weight k rows →
  (weighted_total (required_set rows) (optional_set rows) k ≤ 2 ^ 53)%Z.
Proof.
  intros [Hk Hlen]. pose proof (profile_sizes_le_length rows). unfold weighted_total. nia.
Qed.

Lemma weighted_total_pos k rows :
  (0 < k)%Z → rows ≠ [] →
  (0 < weighted_total (required_set rows) (optional_set rows) k)%Z.
Proof.
  intros Hk Hrows. destruct rows as [|r rows]; [done|]. unfold weighted_total.
  destruct (Profile.required r) eqn:Hr.
  - assert (size (required_set (r :: rows)) ≠ 0%nat).
    { apply size_non_empty_iff. intros E.
      assert (Hin : Profile.skill_abr r ∈ required_set (r :: rows))
        by (apply elem_of_required_set; exists r; split; [left | done]).
      rewrite E in Hin. by apply elem_of_empty in Hin. }
    nia.
  - assert (size (optional_set (r :: rows)) ≠ 0%nat).
    { apply size_non_empty_iff. intros E.
      assert (Hin : Profile.skill_abr r ∈ optional_set (r :: rows))
        by (apply elem_of_optional_set; exists r; split; [left | done]).
      rewrite E in Hin. by apply elem_of_empty in Hin. }
    nia.
Qed.

(** *** Float operations on small whole numbers *)

Lemma float_add_exact a b :
  (0 ≤ a)%Z → (0 ≤ b)%Z → (a + b ≤ 2 ^ 53)%Z →
  Float.add (Float.Finite (inject_Z a)) (Float.Finite (inject_Z b))
  = Float.Finite (inject_Z (a + b)).
Proof.
  intros Ha Hb Hab. simpl.
  rewrite (round_proper _ (inject_Z (a + b))) by (by rewrite inject_Z_plus).
  apply round_Z. unfold Float.prec. lia.
Qed.

Lemma float_mul_exact a b :
  (0 ≤ a)%Z → (0 ≤ b)%Z → (a * b ≤ 2 ^ 53)%Z →
  Float.mul (Float.Finite (inject_Z a)) (Float.Finite (inject_Z b))
  = Float.Finite (inject_Z (a * b)).
Proof.
  intros Ha Hb Hab. simpl.
  rewrite (round_proper _ (inject_Z (a * b))) by (by rewrite inject_Z_mult).
  apply round_Z. unfold Float.prec. nia.
Qed.

Lemma float_of_nat_exact n :
  (Z.of_nat n ≤ 2 ^ 53)%Z → Float.of_nat n = Float.Finite (inject_Z (Z.of_nat n)).
Proof. intros Hn. apply round_Z. unfold Float.prec. lia. Qed.

Lemma float_is_zero_Z z : Float.is_zero (Float.Finite (inject_Z z)) = (z =? 0)%Z.
Proof.
  unfold Float.is_zero.
  destruct (Z.eqb_spec z 0) as [->|Hne]; [done|].
  apply not_true_is_false. intros E%Qeq_bool_iff.
  apply Hne. change 0%Q with (inject_Z 0) in E.
  by apply (proj1 (inject_Z_injective z 0)) in E.
Qed.

Lemma float_truthy_Z z : Float.truthy (Float.Finite (inject_Z z)) = negb (z =? 0)%Z.
Proof. unfold Float.truthy. by rewrite float_is_zero_Z. Qed.

Section ScoreFacts.

Context `{SetOrder}.
Variables (req opt : gset string) (k : Z).

Lemma set_iter_NoDup (X : gset string) : NoDup (set_iter X).
Proof. rewrite set_iter_perm. apply NoDup_elements. Qed.

Lemma list_to_set_set_iter (X : gset string) : list_to_set (set_iter X) = X.
Proof.
  apply set_eq. intros x. by rewrite elem_of_list_to_set, set_iter_perm, elem_of_elements.
Qed.

Lemma set_iter_empty : set_iter ∅ = [].
Proof. apply Permutation_nil_r. by rewrite set_iter_perm, elements_empty. Qed.

(** As long as the sum stays within 53 bits, the loop adds without
    rounding, in whatever order it visits the resume skills. *)
Lemma loop_exact l acc :
  (0 ≤ k)%Z → NoDup l → (0 ≤ acc)%Z →
  (acc + weighted_hits req opt k (list_to_set l) ≤ 2 ^ 53)%Z →
  foldl (add_weight req opt (Float.Finite (inject_Z k))) (Float.Finite (inject_Z acc)) l
  = Float.Finite (inject_Z (acc + weighted_hits req opt k (list_to_set l))).
Proof.
  intros Hk Hl. revert acc. induction Hl as [|s l Hs Hl IH]; intros acc Hacc Hle.
  - simpl. change (list_to_set []) with (∅ : gset string).
    rewrite weighted_hits_empty. do 2 f_equal. lia.
  - assert (Hs' : s ∉ (list_to_set l : gset string)) by by rewrite elem_of_list_to_set.
    change (list_to_set (s :: l)) with ({[s]} ∪ list_to_set l : gset string) in *.
    rewrite weighted_hits_insert in * by done.
    pose proof (weighted_hits_bounds req opt k (list_to_set l) Hk) as [Hh0 _].
    simpl. unfold add_weight at 2.
    destruct (decide (s ∈ req)); [|destruct (decide (s ∈ opt))].
    + rewrite float_add_exact; [|lia..]. rewrite IH; [|lia..].
      by rewrite Z.add_assoc.
    + change (Float.Finite 1) with (Float.Finite (inject_Z 1)).
      rewrite float_add_exact; [|lia..]. rewrite IH; [|lia..].
      by rewrite Z.add_assoc.
    + rewrite IH; [|lia..]. by rewrite Z.add_0_l.
Qed.

Lemma score_loop_exact rs :
  (0 ≤ k)%Z → (weighted_hits req opt k rs ≤ 2 ^ 53)%Z →
  score_loop req opt (Float.Finite (inject_Z k)) rs
  = Float.Finite (inject_Z (weighted_hits req opt k rs)).
Proof.
  intros Hk Hle. unfold score_loop.
  change (Float.Finite 0) with (Float.Finite (inject_Z 0)).
  rewrite loop_exact; rewrite ?list_to_set_set_iter; [done | done | | done | lia].
  apply set_iter_NoDup.
Qed.

Lemma score_denom_exact :
  (0 ≤ k)%Z → (Z.max k 1 * (Z.of_nat (size req) + Z.of_nat (size opt)) ≤ 2 ^ 53)%Z →
  score_denom req opt (Float.Finite (inject_Z k))
  = Float.Finite (inject_Z (weighted_total req opt k)).
Proof.
  intros Hk Hle. unfold score_denom, weighted_total.
  rewrite !float_of_nat_exact by nia.
  rewrite float_mul_exact by nia. by rewrite float_add_exact by nia.
Qed.

End ScoreFacts.

(** With a whole weight the score is the quotient of two whole numbers,
    rounded once. *)
Lemma fit_score_exact `{SetOrder} rs rows k :
  whole_weight k rows →
  fit_score rs (Table rows) (Float.Finite (inject_Z k))
  = Ok (if (weighted_total (required_set rows) (optional_set rows) k =? 0)%Z
        then Float.Finite 0
        else Float.round
               (inject_Z (weighted_hits (required_set rows) (optional_set rows) k rs)
                / inject_Z (weighted_total (required_set rows) (optional_set rows) k))).
Proof.
  intros Hw. pose proof (weighted_total_le k rows Hw) as Htot. destruct Hw as [Hk Hlen].
  pose proof (profile_sizes_le_length rows) as Hsz.
  pose proof (weighted_hits_bounds (required_set rows) (optional_set rows) k rs Hk)
    as [Hh0 Hh].
  unfold fit_score. cbn -[score_denom score_loop Float.truthy Float.div].
  rewrite score_denom_exact by (done || nia).
  rewrite score_loop_exact by (done || lia).
  rewrite float_truthy_Z.
  destruct (Z.eqb_spec (weighted_total (required_set rows) (optional_set rows) k) 0)
    as [E|Hne]; [done|].
  simpl negb. cbv iota. unfold Float.div.
  by rewrite float_is_zero_Z, (proj2 (Z.eqb_neq _ _) Hne).
Qed.

Lemma fit_score_empty_table `{SetOrder} rs w :
  fit_score rs (Table []) (Float.Finite w) = Ok (Float.Finite 0).
Proof.
  unfold fit_score. cbn -[score_denom score_loop Float.truthy Float.div].
  change (required_set []) with (∅ : gset string).
  change (optional_set []) with (∅ : gset string).
  assert (E : score_denom ∅ ∅ (Float.Finite w) = Float.Finite 0).
  { unfold score_denom. rewrite size_empty.
    change (Float.of_nat 0) with (Float.Finite 0). unfold Float.mul.
    rewrite (round_proper _ 0) by ring. reflexivity. }
  by rewrite E.
Qed.

(** X12. In a built profile no skill is both required and optional: all entries
    of a skill carry the same [pct_jobs]. *)
Lemma built_profile_disjoint role_keywords skills job_skills industries job_industries
    role m p :
  let rows := frame_rows (build_role_skill_profile role_keywords skills job_skills
                            industries job_industries role m p) in
  required_set rows ## optional_set rows.
Proof.
  intros rows abr (r1 & H1 & E1 & R1)%elem_of_required_set
                  (r2 & H2 & E2 & R2)%elem_of_optional_set.
  apply elem_of_profile in H1 as (_ & _ & Hc1 & Hp1 & _ & Hr1 & _).
  apply elem_of_profile in H2 as (_ & _ & Hc2 & Hp2 & _ & Hr2 & _).
  rewrite Hr1, Hp1, Hc1, E1 in R1. rewrite Hr2, Hp2, Hc2, E2 in R2. congruence.
Qed.


(** C3, as amended. For a whole weight [k >= 0] (the default 2.0 is one)
    and a profile with columns, the loop and the denominator are computed
    without rounding: the numerator is the weighted number of profiled
    skills of the resume and is at most the denominator, and the score is a
    double between 0 and 1. For a positive weight, a score of 1 means that
    the resume has every profiled skill; conversely a resume with every
    profiled skill scores 1, provided the profile is not empty and no
    skill is both required and optional in it. Against the empty profile
    the score is 0. *)
Theorem fit_score_in_unit_interval `{SetOrder} (rs : gset string) rows (k : Z) :
  whole_weight k rows →
  ∃ q, fit_score rs (Table rows) (Float.Finite (inject_Z k)) = Ok (Float.Finite q)
       ∧ (0 <= q <= 1)%Q
       ∧ score_loop (required_set rows) (optional_set rows) (Float.Finite (inject_Z k)) rs
         = Float.Finite
             (inject_Z (weighted_hits (required_set rows) (optional_set rows) k rs))
       ∧ score_denom (required_set rows) (optional_set rows) (Float.Finite (inject_Z k))
         = Float.Finite
             (inject_Z (weighted_total (required_set rows) (optional_set rows) k))
       ∧ (weighted_hits (required_set rows) (optional_set rows) k rs
          ≤ weighted_total (required_set rows) (optional_set rows) k)%Z
       ∧ ((0 < k)%Z → (q == 1)%Q → ∀ r, r ∈ rows → Profile.skill_abr r ∈ rs)
       ∧ ((0 < k)%Z → rows ≠ [] → required_set rows ## optional_set rows →
          (∀ r, r ∈ rows → Profile.skill_abr r ∈ rs) → (q == 1)%Q)
       ∧ (rows = [] → (q == 0)%Q).
Proof.
  intros Hw. rewrite (fit_score_exact rs rows k Hw).
  pose proof (weighted_total_le k rows Hw) as Htot.
  pose proof (profile_sizes_le_length rows) as Hsz.
  pose proof (weighted_total_pos k rows) as Hpos.
  assert (Hempty : rows = [] →
                   weighted_total (required_set rows) (optional_set rows) k = 0%Z).
  { intros ->. unfold weighted_total.
    change (required_set []) with (∅ : gset string).
    change (optional_set []) with (∅ : gset string). rewrite size_empty. lia. }
  destruct Hw as [Hk Hlen].
  pose proof (weighted_hits_bounds (required_set rows) (optional_set rows) k rs Hk)
    as [Hh0 Hh].
  pose proof (weighted_hits_full_inv (required_set rows) (optional_set rows) k rs) as Hinv.
  pose proof (weighted_hits_full (required_set rows) (optional_set rows) k rs) as Hfull.
  assert (Hloop := score_loop_exact (required_set rows) (optional_set rows) k rs Hk).
  assert (Hden := score_denom_exact (required_set rows) (optional_set rows) k Hk).
  set (req := required_set rows) in *. set (opt := optional_set rows) in *.
  set (hits := weighted_hits req opt k rs) in *.
  set (total := weighted_total req opt k) in *.
  assert (Hcover : req ⊆ rs ∧ opt ⊆ rs → ∀ r, r ∈ rows → Profile.skill_abr r ∈ rs).
  { intros [Hreq Hopt] r Hr. destruct (Profile.required r) eqn:Hrr.
    - apply Hreq, elem_of_required_set. by exists r.
    - apply Hopt, elem_of_optional_set. by exists r. }
  assert (Hall : (∀ r, r ∈ rows → Profile.skill_abr r ∈ rs) → req ⊆ rs ∧ opt ⊆ rs).
  { intros Hrows. split.
    - intros abr (r & Hr & <- & _)%elem_of_required_set. by apply Hrows.
    - intros abr (r & Hr & <- & _)%elem_of_optional_set. by apply Hrows. }
  destruct (Z.eqb_spec total 0) as [E|Hne].
  - exists 0%Q. split; [done|]. split; [by split|].
    split; [apply Hloop; lia|]. split; [apply Hden; nia|]. split; [done|].
    split; [intros _ Hone; discriminate Hone|]. split; [|done].
    intros Hk' Hrows _ _. specialize (Hpos Hk' Hrows). lia.
  - destruct (round_quotient hits total) as (q & Hq & Hunit & Hone); [lia | lia |].
    exists q. split; [by rewrite Hq|]. split; [done|].
    split; [apply Hloop; lia|]. split; [apply Hden; nia|]. split; [done|].
    split; [|split].
    + intros Hk' Hq1. apply Hcover, Hinv; [done|]. by apply Hone.
    + intros Hk' Hrows Hdisj Hrs. apply Hone.
      destruct (Hall Hrs). by apply Hfull.
    + intros Hrows. by apply Hempty in Hrows.
Qed.

(** C3, the claim as stated fails. A role with a job but no skill link
    has the empty profile: the empty resume holds every profiled skill, and
    the score is 0, not 1. With the weight 0.7 and six required skills,
    all of them in the resume, the loop adds up to 4.2 while the
    denominator [0.7*6] is 4.199999999999999: the numerator exceeds the
    denominator and the score 1.0000000000000002 lies above 1. With the
    weight 0.1 the same resume scores 0.9999999999999998, not 1. (All six
    additions are of the same weight, so that the order of the loop plays
    no part.) *)
Lemma fit_score_zero_on_empty_profile_and_above_one :
  ¬ (∀ q,
       fit_score (H := elements_order) ∅
         (build_role_skill_profile ROLE_KEYWORDS Demo.skills [] Demo.industries
            Dups.job_industries "DATA_ANALYST" 50 (3 # 10)) (Float.Finite 2)
       = Ok (Float.Finite q) →
       ((q == 1)%Q ↔
        ∀ r, r ∈ frame_rows
                   (build_role_skill_profile ROLE_KEYWORDS Demo.skills []
                      Demo.industries Dups.job_industries "DATA_ANALYST" 50 (3 # 10)) →
             Profile.skill_abr r ∈ (∅ : gset string)))
  ∧ ¬ (∀ q,
         fit_score (H := elements_order) Six.resume Six.profile (Float.round (7 # 10))
         = Ok (Float.Finite q) →
         (0 <= q <= 1)%Q)
  ∧ required_set (frame_rows Six.profile) = Six.resume
  ∧ optional_set (frame_rows Six.profile) = ∅
  ∧ score_loop (H := elements_order) (required_set (frame_rows Six.profile))
      (optional_set (frame_rows Six.profile)) (Float.round (7 # 10)) Six.resume
    = Float.round (42 # 10)
  ∧ score_denom (required_set (frame_rows Six.profile))
      (optional_set (frame_rows Six.profile)) (Float.round (7 # 10))
    = Float.round (4199999999999999 # 1000000000000000)
  ∧ fit_score (H := elements_order) Six.resume Six.profile (Float.round (7 # 10))
    = Ok (Float.round (10000000000000002 # 10000000000000000))
  ∧ fit_score (H := elements_order) Six.resume Six.profile (Float.round (1 # 10))
    = Ok (Float.round (9999999999999998 # 10000000000000000)).
Proof.
  split; [|split; [|by vm_compute]].
  - intros Hq. specialize (Hq 0%Q eq_refl) as [_ Hq].
    assert (Hone : (0 == 1)%Q).
    { apply Hq. intros r Hr. vm_compute in Hr. by apply elem_of_nil in Hr. }
    discriminate Hone.
  - intros Hq.
    specialize (Hq (4503599627370497 # 4503599627370496)%Q) as [_ Hq]; [by vm_compute|].
    by vm_compute in Hq.
Qed.

Lemma fit_score_in_unit_interval_witness :
  whole_weight 2 (frame_rows Demo.profile)
  ∧ ∃ q, fit_score (H := elements_order) {["S1"; "S2"]} (Table (frame_rows Demo.profile))
           (Float.Finite 2) = Ok (Float.Finite q)
         ∧ (0 <= q <= 1)%Q.
Proof.
  assert (Hw : whole_weight 2 (frame_rows Demo.profile)) by (split; by vm_compute).
  split; [exact Hw|].
  destruct (fit_score_in_unit_interval (H := elements_order) {["S1"; "S2"]}
              (frame_rows Demo.profile) 2 Hw)
    as (q & Hq & Hbounds & _).
  exists q. by split.
Defined.

(** C4, the code at a role without jobs: the profile is [pd.DataFrame()],
    a frame without columns, and scoring against it raises
    [AttributeError] where 0.0 is due. So does the report once the
    extractor has returned, that is with [re] bound; in the notebook as
    written the report stops before, with the [NameError] of the
    extractor. Against an empty profile that has its columns the score
    is 0. *)
Theorem fit_score_raises_on_profile_of_role_without_jobs `{SetOrder} :
  role_job_ids ROLE_KEYWORDS Demo.industries Demo.job_industries "ML_ENGINEER" = []
  ∧ build_role_skill_profile ROLE_KEYWORDS Demo.skills Demo.job_skills Demo.industries
      Demo.job_industries "ML_ENGINEER" 50 (3 # 10) = NoColumns
  ∧ (∀ rs w,
       fit_score rs
         (build_role_skill_profile ROLE_KEYWORDS Demo.skills Demo.job_skills
            Demo.industries Demo.job_industries "ML_ENGINEER" 50 (3 # 10)) w
       = Raise AttributeError)
  ∧ build_fit_report globals_with_re (with_pattern Demo.skills) Demo.profiles
      "resume-1" "I know Python" "ML_ENGINEER" = Raise AttributeError
  ∧ build_fit_report notebook_globals (with_pattern Demo.skills) Demo.profiles
      "resume-1" "I know Python" "ML_ENGINEER" = Raise NameError
  ∧ (∀ rs w, fit_score rs (Table []) (Float.Finite w) = Ok (Float.Finite 0)).
Proof.
  split; [by vm_compute|]. split; [by vm_compute|].
  split; [intros rs w; reflexivity|].
  split; [by vm_compute|]. split; [by vm_compute|].
  apply fit_score_empty_table.
Qed.

(** The report, once the extractor has returned and the role has a
    profile with columns. *)
Lemma build_fit_report_Table `{SetOrder} g skills profiles resume_id resume_text role
    rskills rows q :
  extract_resume_skills g skills resume_text = Ok rskills →
  dict_get profiles role = Ok (Table rows) →
  fit_score rskills (Table rows) (Float.Finite 2) = Ok q →
  build_fit_report g skills profiles resume_id resume_text role
  = Ok {| FitReport.resume_id := resume_id;
          FitReport.role := role;
          FitReport.fit_score := py_round q 2;
          FitReport.matched_skills :=
            Profile.skill_name <$> filter (λ r, Profile.skill_abr r ∈ rskills) rows;
          FitReport.missing_skills :=
            Profile.skill_name
              <$> filter (λ r, (Profile.skill_abr r ∉ rskills)
                               ∧ Profile.required r = true) rows |}.
Proof.
  intros He Hd Hq. unfold build_fit_report. rewrite He.
  cbn -[fit_score py_round]. rewrite Hd. cbn -[fit_score py_round]. rewrite Hq.
  reflexivity.
Qed.

(** The report stops with the error of the extractor. *)
Lemma build_fit_report_extract_raises `{SetOrder} g skills profiles resume_id resume_text
    role e :
  extract_resume_skills g skills resume_text = Raise e →
  build_fit_report g skills profiles resume_id resume_text role = Raise e.
Proof. intros He. unfold build_fit_report. by rewrite He. Qed.

(** C2, the code at the round-trip scenario: the catalog S1 = Python,
    S2 = SQL and a role of five jobs, three linked to S1 and one to S2, so
    that the profile has S1 required (0.6) and S2 optional (0.2). The
    score of {S1} is the double nearest to 2/(2*1+1), as the claim says.
    The extractor and the report raise [NameError], for every resume: the
    catalog has a pattern that passes the guard, and the name [re] is not
    bound. Once [re] is bound to the standard module, the resume
    "I know Python" gives {S1} and the report of the claim, with the
    score 0.67. *)
Theorem round_trip_scenario_raises_name_error `{SetOrder} :
  Demo.profile =
    Table [ {| Profile.skill_abr := "S1"; Profile.count := 3;
               Profile.pct_jobs := 3 # 5; Profile.skill_name := Some "Python";
               Profile.required := true; Profile.role := "DATA_ANALYST" |};
            {| Profile.skill_abr := "S2"; Profile.count := 1;
               Profile.pct_jobs := 1 # 5; Profile.skill_name := Some "SQL";
               Profile.required := false; Profile.role := "DATA_ANALYST" |} ]
  ∧ fit_score {["S1"]} Demo.profile (Float.Finite 2)
    = Float.div (Float.Finite 2)
        (Float.add (Float.mul (Float.Finite 2) (Float.Finite 1)) (Float.Finite 1))
  ∧ fit_score {["S1"]} Demo.profile (Float.Finite 2) = Ok (Float.round (2 # 3))
  ∧ (∀ resume_text,
       extract_resume_skills notebook_globals (with_pattern Demo.skills) resume_text
       = Raise NameError)
  ∧ (∀ resume_id resume_text role,
       build_fit_report notebook_globals (with_pattern Demo.skills) Demo.profiles
         resume_id resume_text role
       = Raise NameError)
  ∧ extract_resume_skills globals_with_re (with_pattern Demo.skills) "I know Python"
    = Ok {["S1"]}
  ∧ build_fit_report globals_with_re (with_pattern Demo.skills) Demo.profiles
      "resume-1" "I know Python" "DATA_ANALYST"
    = Ok {| FitReport.resume_id := "resume-1";
            FitReport.role := "DATA_ANALYST";
            FitReport.fit_score := Float.round (67 # 100);
            FitReport.matched_skills := [Some "Python"];
            FitReport.missing_skills := [] |}.
Proof.
  assert (Hprof : Demo.profile
                  = Table [ {| Profile.skill_abr := "S1"; Profile.count := 3;
                               Profile.pct_jobs := 3 # 5;
                               Profile.skill_name := Some "Python";
                               Profile.required := true;
                               Profile.role := "DATA_ANALYST" |};
                            {| Profile.skill_abr := "S2"; Profile.count := 1;
                               Profile.pct_jobs := 1 # 5;
                               Profile.skill_name := Some "SQL";
                               Profile.required := false;
                               Profile.role := "DATA_ANALYST" |} ])
    by (by vm_compute).
  assert (Hscore : fit_score {["S1"]} Demo.profile (Float.Finite 2)
                   = Ok (Float.round (2 # 3))).
  { rewrite Hprof. change (Float.Finite 2) with (Float.Finite (inject_Z 2)).
    rewrite fit_score_exact by (split; by vm_compute). by vm_compute. }
  assert (Hraise : ∀ resume_text,
             extract_resume_skills notebook_globals (with_pattern Demo.skills) resume_text
             = Raise NameError).
  { intros resume_text. rewrite extract_unbound by done. by vm_compute. }
  assert (Hext : extract_resume_skills globals_with_re (with_pattern Demo.skills)
                   "I know Python" = Ok {["S1"]}) by (by vm_compute).
  split; [done|]. split; [by rewrite Hscore; vm_compute|]. split; [done|].
  split; [done|]. split; [|split; [done|]].
  - intros resume_id resume_text role. by apply build_fit_report_extract_raises.
  - assert (Hd : dict_get Demo.profiles "DATA_ANALYST" = Ok Demo.profile)
      by (by vm_compute).
    rewrite Hprof in Hscore, Hd.
    rewrite (build_fit_report_Table globals_with_re (with_pattern Demo.skills)
               Demo.profiles "resume-1" "I know Python" "DATA_ANALYST" {["S1"]} _ _
               Hext Hd Hscore).
    by vm_compute.
Qed.

(** * Further properties *)

(** ** The classifier and the role index *)

Lemma lower_ascii_idemp c : lower_ascii (lower_ascii c) = lower_ascii c.
Proof. by destruct c as [[] [] [] [] [] [] [] []]. Qed.

Lemma lower_idemp s : lower (lower s) = lower s.
Proof. induction s as [|c r IH]; [done|]. simpl. by rewrite lower_ascii_idemp, IH. Qed.

Lemma lower_ascii_not_upper c : is_upper (lower_ascii c) = false.
Proof. by destruct c as [[] [] [] [] [] [] [] []]. Qed.

Lemma lower_no_upper s : str_any is_upper (lower s) = false.
Proof. induction s as [|c r IH]; [done|]. simpl. by rewrite lower_ascii_not_upper, IH. Qed.

Lemma str_any_app p a b : str_any p (a +:+ b) = str_any p a || str_any p b.
Proof.
  induction a as [|c a IH]; [done|].
  rewrite app_cons_s. simpl. by rewrite IH, orb_assoc.
Qed.

Lemma str_any_substring p kw s :
  is_substring kw s → str_any p kw = true → str_any p s = true.
Proof.
  intros (pre & post & ->) Hkw. rewrite !str_any_app, Hkw.
  by rewrite orb_true_r.
Qed.

Lemma roles_loop_sublist name_l (cfg : list (string * list string)) :
  roles_loop name_l cfg `sublist_of` cfg.*1.
Proof.
  induction cfg as [|[role kws] cfg IH]; simpl; [constructor|].
  destruct (any_kw_in name_l kws); by constructor.
Qed.

(** X1. The roles of an industry come in the order of the configuration, each
    configured entry at most once; with distinct keys no role comes twice. *)
Theorem assigned_roles_in_configuration_order
    (cfg : list (string * list string)) (industry_name : pyobj) :
  assign_role_from_industry cfg industry_name `sublist_of` cfg.*1
  ∧ (NoDup cfg.*1 → NoDup (assign_role_from_industry cfg industry_name)).
Proof.
  split; [apply roles_loop_sublist|].
  intros Hnd. eapply sublist_NoDup; [done | apply roles_loop_sublist].
Qed.

(** X2. The classifier does not tell upper case from lower case in the name. *)
Theorem assign_role_ignores_case (cfg : list (string * list string)) (name : string) :
  assign_role_from_industry cfg (PStr (lower name))
  = assign_role_from_industry cfg (PStr name).
Proof. unfold assign_role_from_industry. simpl. by rewrite lower_idemp. Qed.

(** X3. A keyword with an upper-case letter matches no name, since names are
    lower-cased and keywords are not: a role all of whose keywords have one
    is never assigned. *)
Theorem role_with_upper_case_keywords_never_assigned
    (cfg : list (string * list string)) (role : string) (industry_name : pyobj) :
  (∀ kws kw, (role, kws) ∈ cfg → kw ∈ kws → str_any is_upper kw = true) →
  role ∉ assign_role_from_industry cfg industry_name.
Proof.
  intros Hupper (kws & Hin & Hany)%elem_of_roles_loop.
  apply any_kw_in_spec in Hany as (kw & Hkw & Hsub).
  pose proof (str_any_substring is_upper _ _ Hsub (Hupper kws kw Hin Hkw)) as H.
  by rewrite lower_no_upper in H.
Qed.

Lemma role_with_upper_case_keywords_never_assigned_witness :
  (∀ kws kw, ("DATA", kws) ∈ [("DATA", ["Data"])] → kw ∈ kws →
             str_any is_upper kw = true)
  ∧ "DATA" ∉ assign_role_from_industry [("DATA", ["Data"])] (PStr "Data Analytics").
Proof.
  assert (H : ∀ kws kw, ("DATA", kws) ∈ [("DATA", ["Data"])] → kw ∈ kws →
                        str_any is_upper kw = true).
  { intros kws kw [[= ->]|[]%elem_of_nil]%elem_of_cons [->|[]%elem_of_nil]%elem_of_cons.
    reflexivity. }
  split; [exact H|].
  exact (role_with_upper_case_keywords_never_assigned
           [("DATA", ["Data"])] "DATA" (PStr "Data Analytics") H).
Defined.

Section IndexFacts.

Variable role_keywords : list (string * list string).
Variable industries : list Industries.row.
Variable job_industries : list JobIndustries.row.

Lemma elem_of_ind_role i role :
  (i, role) ∈ ind_role role_keywords industries ↔
  ∃ ind, ind ∈ industries ∧ Industries.industry_id ind = i
         ∧ role ∈ assign_role_from_industry role_keywords (Industries.industry_name ind).
Proof.
  unfold ind_role. rewrite list_elem_of_bind. split.
  - intros (ind & (r & [= -> ->] & Hr)%list_elem_of_fmap & Hind). by exists ind.
  - intros (ind & Hind & <- & Hr). exists ind. split; [|done].
    apply list_elem_of_fmap. by exists role.
Qed.

Lemma elem_of_job_roles jr :
  jr ∈ job_roles role_keywords industries job_industries ↔
  ∃ ji ind, ji ∈ job_industries ∧ ind ∈ industries
            ∧ JobIndustries.job_id ji = JobRoles.job_id jr
            ∧ JobIndustries.industry_id ji = JobRoles.industry_id jr
            ∧ Industries.industry_id ind = JobRoles.industry_id jr
            ∧ JobRoles.role jr
              ∈ assign_role_from_industry role_keywords (Industries.industry_name ind).
Proof.
  unfold job_roles. rewrite list_elem_of_bind. split.
  - intros (ji & ([i role] & -> & [Hi Hir]%list_elem_of_filter)%list_elem_of_fmap & Hji).
    simpl in *. apply elem_of_ind_role in Hir as (ind & Hind & Hid & Hrole).
    exists ji, ind. by subst.
  - intros (ji & ind & Hji & Hind & Hj & Hi & Hid & Hrole).
    exists ji. split; [|done]. apply list_elem_of_fmap.
    exists (JobRoles.industry_id jr, JobRoles.role jr). split.
    + destruct jr; simpl in *. by subst.
    + apply list_elem_of_filter. split; [done|].
      apply elem_of_ind_role. by exists ind.
Qed.

Lemma elem_of_role_job_ids role j :
  j ∈ role_job_ids role_keywords industries job_industries role ↔
  ∃ ji ind, ji ∈ job_industries ∧ ind ∈ industries
            ∧ JobIndustries.job_id ji = j
            ∧ JobIndustries.industry_id ji = Industries.industry_id ind
            ∧ role ∈ assign_role_from_industry role_keywords
                       (Industries.industry_name ind).
Proof.
  unfold role_job_ids. rewrite elem_of_unique, list_elem_of_fmap. split.
  - intros (jr & -> & [<- Hjr]%list_elem_of_filter).
    apply elem_of_job_roles in Hjr as (ji & ind & ? & ? & ? & ? & ? & ?).
    exists ji, ind. repeat split; [done..|congruence|done].
  - intros (ji & ind & Hji & Hind & <- & Hi & Hrole).
    exists {| JobRoles.job_id := JobIndustries.job_id ji;
              JobRoles.industry_id := JobIndustries.industry_id ji;
              JobRoles.role := role |}.
    split; [done|]. apply list_elem_of_filter. split; [done|].
    apply elem_of_job_roles. by exists ji, ind.
Qed.

(** X4. The jobs of a role are the jobs linked to an industry that the
    classifier assigns to the role, each listed once. *)
Theorem role_job_ids_exact (role : string) :
  NoDup (role_job_ids role_keywords industries job_industries role)
  ∧ ∀ j, j ∈ role_job_ids role_keywords industries job_industries role ↔
         ∃ ji ind, ji ∈ job_industries ∧ ind ∈ industries
                   ∧ JobIndustries.job_id ji = j
                   ∧ JobIndustries.industry_id ji = Industries.industry_id ind
                   ∧ role ∈ assign_role_from_industry role_keywords
                              (Industries.industry_name ind).
Proof. split; [apply NoDup_unique | apply elem_of_role_job_ids]. Qed.

(** X5. A role that is no key of the configuration has no job, and its profile
    is the frame without columns. *)
Theorem unconfigured_role_has_no_profile skills job_skills role m p :
  role ∉ role_keywords.*1 →
  role_job_ids role_keywords industries job_industries role = []
  ∧ build_role_skill_profile role_keywords skills job_skills industries
      job_industries role m p = NoColumns.
Proof.
  intros Hrole.
  assert (Hnil : role_job_ids role_keywords industries job_industries role = []).
  { apply elem_of_nil_inv. intros j Hj.
    apply elem_of_role_job_ids in Hj as (ji & ind & _ & _ & _ & _ & Hr).
    apply Hrole. eapply elem_of_sublist; [exact Hr | apply roles_loop_sublist]. }
  split; [done|]. by apply build_no_jobs.
Qed.

End IndexFacts.

Lemma unconfigured_role_has_no_profile_witness :
  ("DEVOPS" ∉ ROLE_KEYWORDS.*1)
  ∧ build_role_skill_profile ROLE_KEYWORDS Demo.skills Demo.job_skills Demo.industries
      Demo.job_industries "DEVOPS" 50 (3 # 10) = NoColumns.
Proof.
  assert (H : "DEVOPS" ∉ ROLE_KEYWORDS.*1).
  { unfold ROLE_KEYWORDS. simpl. rewrite !not_elem_of_cons.
    repeat split; [discriminate..|]. apply not_elem_of_nil. }
  split; [exact H|].
  exact (proj2 (unconfigured_role_has_no_profile ROLE_KEYWORDS Demo.industries
                  Demo.job_industries Demo.skills Demo.job_skills "DEVOPS" 50 (3 # 10) H)).
Defined.

(** ** The profile builder *)

Lemma sum_list_cons (n : nat) (l : list nat) : sum_list (n :: l) = n + sum_list l.
Proof. reflexivity. Qed.

Lemma sum_indicator_absent (ks : list string) x :
  x ∉ ks → sum_list ((λ k, if decide (x = k) then 1 else 0) <$> ks) = 0.
Proof.
  induction ks as [|k ks IH]; [done|].
  intros [Hne Hk]%not_elem_of_cons.
  rewrite fmap_cons, sum_list_cons, decide_False by done. by rewrite IH.
Qed.

Lemma sum_indicator (ks : list string) x :
  NoDup ks → x ∈ ks → sum_list ((λ k, if decide (x = k) then 1 else 0) <$> ks) = 1.
Proof.
  induction 1 as [|k ks Hk Hnd IH]; [by intros ?%elem_of_nil|].
  rewrite fmap_cons, sum_list_cons. intros [->|Hin]%elem_of_cons.
  - rewrite decide_True by done. by rewrite sum_indicator_absent.
  - rewrite decide_False by (intros ->; done). by rewrite IH.
Qed.

(** Over distinct keys that cover a list, the occurrence counts add up to
    its length. *)
Lemma sum_counts (ks l : list string) :
  NoDup ks → (∀ x, x ∈ l → x ∈ ks) →
  sum_list ((λ k, length (filter (λ v, v = k) l)) <$> ks) = length l.
Proof.
  intros Hnd. induction l as [|x l IH]; intros Hcover.
  - clear. induction ks as [|k ks IHk]; [done|].
    by rewrite fmap_cons, sum_list_cons, IHk.
  - assert (E : sum_list ((λ k, length (filter (λ v, v = k) (x :: l))) <$> ks)
                = sum_list ((λ k, if decide (x = k) then 1 else 0) <$> ks)
                  + sum_list ((λ k, length (filter (λ v, v = k) l)) <$> ks)).
    { clear. induction ks as [|k ks IH]; [done|].
      rewrite !fmap_cons, !sum_list_cons, IH, filter_cons.
      destruct (decide (x = k)); simpl; lia. }
    rewrite E, sum_indicator, IH; [done| |done|].
    + intros y Hy. apply Hcover. by right.
    + apply Hcover. left.
Qed.

Lemma value_counts_Permutation l :
  Pandas.value_counts l
  ≡ₚ (λ k, (k, length (filter (λ v, v = k) l))) <$> Pandas.unique l.
Proof. apply sort_desc_Permutation. Qed.

Lemma sum_value_counts l : sum_list (Pandas.value_counts l).*2 = length l.
Proof.
  rewrite value_counts_Permutation, <- list_fmap_compose.
  apply sum_counts; [apply NoDup_unique|]. intros x. by rewrite elem_of_unique.
Qed.

Lemma NoDup_value_counts_keys l : NoDup (Pandas.value_counts l).*1.
Proof.
  rewrite value_counts_Permutation, <- list_fmap_compose.
  rewrite (list_fmap_ext _ id) by done.
  rewrite list_fmap_id. apply NoDup_unique.
Qed.

(** With distinct catalog keys the merge yields one row per left row. *)
Lemma merge_row_single skills f :
  NoDup (Skills.skill_abr <$> skills) →
  ∃ name, Pandas.merge_row skills f = [(f, name)].
Proof.
  intros Hnd. unfold Pandas.merge_row.
  induction skills as [|s skills IH]; [by exists None|].
  rewrite fmap_cons in Hnd. apply NoDup_cons in Hnd as [Hs Hnd].
  rewrite filter_cons. destruct (decide (Skills.skill_abr s = f.1.1)) as [E|E].
  - assert (Hnil : filter (λ s, Skills.skill_abr s = f.1.1) skills = []).
    { apply elem_of_nil_inv. intros s' [Hs' Hin]%list_elem_of_filter.
      apply Hs. rewrite E, <- Hs'. by apply list_elem_of_fmap_2. }
    rewrite Hnil. by exists (Some (Skills.skill_name s)).
  - by apply IH.
Qed.

Lemma merge_left_fst skills freq :
  NoDup (Skills.skill_abr <$> skills) →
  (Pandas.merge_left skills freq).*1 = freq.
Proof.
  intros Hnd. unfold Pandas.merge_left.
  induction freq as [|f freq IH]; [done|].
  rewrite bind_cons, fmap_app, IH.
  destruct (merge_row_single skills f Hnd) as [name ->]. done.
Qed.

Section ProfileFurther.

Variable role_keywords : list (string * list string).
Variable skills : list Skills.row.
Variable job_skills : list JobSkills.row.
Variable industries : list Industries.row.
Variable job_industries : list JobIndustries.row.

Lemma built_rows_sorted role m p :
  StronglySorted pct_desc
    (frame_rows
       (build_role_skill_profile role_keywords skills job_skills industries
          job_industries role m p)).
Proof.
  apply Sorted_StronglySorted; [apply _|].
  apply (Sorted_weaken (Pandas.not_below pct_gt)); [apply not_below_pct_desc|].
  unfold build_role_skill_profile.
  destruct (length _ =? 0)%nat; simpl; [constructor|].
  apply sort_desc_Sorted, pct_gt_asym.
Qed.

Lemma built_rows_pct_bounds role m p r :
  r ∈ frame_rows
        (build_role_skill_profile role_keywords skills job_skills industries
           job_industries role m p) →
  (0 < Profile.pct_jobs r)%Q ∧ (NoDup job_skills → (Profile.pct_jobs r <= 1)%Q).
Proof.
  intros (Hne & (l & Hl & Habr) & Hc & Hp & _)%elem_of_profile.
  set (ids := role_job_ids role_keywords industries job_industries role) in *.
  assert (Hlen : (0 < Q_of_len ids)%Q).
  { apply Qinject_nat_pos. destruct ids; [done | simpl; lia]. }
  rewrite Hp, Hc. split.
  - apply Qlt_shift_div_l; [done|]. rewrite Qmult_0_l.
    apply Qinject_nat_pos. rewrite <- Habr. by apply occurrences_pos.
  - intros Hnd. apply Qle_shift_div_r; [done|]. rewrite Qmult_1_l.
    by apply Qinject_nat_le, occurrences_le_jobs.
Qed.

(** X7. A built profile lists its required entries first: it is the required
    entries followed by the optional ones, each group in profile order. *)
Theorem profile_lists_required_entries_first role m p :
  let rows := frame_rows
                (build_role_skill_profile role_keywords skills job_skills industries
                   job_industries role m p) in
  rows = (filter (λ r, Profile.required r = true) rows
          ++ filter (λ r, Profile.required r = false) rows)%list.
Proof.
  intros rows.
  assert (Hreq : ∀ r, r ∈ rows → Profile.required r = Qle_bool p (Profile.pct_jobs r)).
  { by intros r (_ & _ & _ & _ & _ & Hr & _)%elem_of_profile. }
  pose proof (built_rows_sorted role m p) as Hs. fold rows in Hs.
  clearbody rows. induction Hs as [|x l Hl IH Hx]; [done|].
  assert (Hl' : ∀ r, r ∈ l → Profile.required r = Qle_bool p (Profile.pct_jobs r))
    by (intros r Hr; apply Hreq; by right).
  specialize (IH Hl'). rewrite !filter_cons.
  destruct (Profile.required x) eqn:Hrx.
  - rewrite decide_True, decide_False by done. simpl. by rewrite <- IH.
  - rewrite decide_False, decide_True by done.
    assert (Hall : Forall (λ r, Profile.required r = false) l).
    { apply Forall_forall. intros r Hr.
      rewrite Hl' by done. rewrite Hreq in Hrx by left.
      apply not_true_is_false. rewrite Qle_bool_iff. intros Hle.
      apply not_true_iff_false in Hrx. apply Hrx, Qle_bool_iff.
      eapply Qle_trans; [exact Hle|]. by apply (proj1 (Forall_forall _ _) Hx r). }
    assert (E1 : filter (λ r, Profile.required r = true) l = []).
    { apply elem_of_nil_inv. intros r [Hr Hin]%list_elem_of_filter.
      pose proof (proj1 (Forall_forall _ _) Hall r Hin). congruence. }
    rewrite E1. simpl. f_equal. clear -Hall.
    induction Hall as [|y l Hy Hall IH]; [done|].
    rewrite filter_cons, decide_True by done. by rewrite <- IH.
Qed.

(** X8. With a threshold of zero or less every entry of the profile is
    required. *)
Theorem nonpositive_threshold_makes_all_required role m p r :
  (p <= 0)%Q →
  r ∈ frame_rows
        (build_role_skill_profile role_keywords skills job_skills industries
           job_industries role m p) →
  Profile.required r = true.
Proof.
  intros Hp Hr. pose proof (built_rows_pct_bounds role m p r Hr) as [Hpos _].
  apply elem_of_profile in Hr as (_ & _ & _ & _ & _ & -> & _).
  apply Qle_bool_iff. eapply Qle_trans; [exact Hp|]. by apply Qlt_le_weak.
Qed.

(** X9. Without duplicate job-skill links, a threshold above 1 leaves no entry
    required. *)
Theorem threshold_above_one_makes_all_optional role m p r :
  NoDup job_skills →
  (1 < p)%Q →
  r ∈ frame_rows
        (build_role_skill_profile role_keywords skills job_skills industries
           job_industries role m p) →
  Profile.required r = false.
Proof.
  intros Hnd Hp Hr. pose proof (built_rows_pct_bounds role m p r Hr) as [_ Hle].
  apply elem_of_profile in Hr as (_ & _ & _ & _ & _ & -> & _).
  apply not_true_is_false. rewrite Qle_bool_iff. intros H.
  apply (Qlt_irrefl 1). eapply Qlt_le_trans; [exact Hp|].
  eapply Qle_trans; [exact H | by apply Hle].
Qed.

Lemma built_rows_Permutation role m p :
  role_job_ids role_keywords industries job_industries role ≠ [] →
  frame_rows
    (build_role_skill_profile role_keywords skills job_skills industries
       job_industries role m p)
  ≡ₚ profile_row role p
       <$> merged_freq role_keywords skills job_skills industries job_industries role.
Proof.
  intros Hne. rewrite build_rows by done. simpl. by rewrite sort_desc_Permutation.
Qed.

Lemma profile_row_abr role p (l : list (string * nat * Q * option string)) :
  Profile.skill_abr <$> (profile_row role p <$> l) = (λ m, m.1.1.1) <$> l.
Proof.
  rewrite <- list_fmap_compose. apply list_fmap_ext. by intros _ [[[??]?]?] _.
Qed.

Lemma profile_row_count role p (l : list (string * nat * Q * option string)) :
  Profile.count <$> (profile_row role p <$> l) = (λ m, m.1.1.2) <$> l.
Proof.
  rewrite <- list_fmap_compose. apply list_fmap_ext. by intros _ [[[??]?]?] _.
Qed.

Lemma merged_freq_fst role :
  NoDup (Skills.skill_abr <$> skills) →
  (merged_freq role_keywords skills job_skills industries job_industries role).*1.*1
  = Pandas.value_counts
      (JobSkills.skill_abr
         <$> role_links role_keywords job_skills industries job_industries role).
Proof.
  intros Hnd. unfold merged_freq. rewrite merge_left_fst by done.
  rewrite <- list_fmap_compose. rewrite (list_fmap_ext _ id) by done.
  apply list_fmap_id.
Qed.

(** X10. With distinct catalog keys a built profile has one entry per skill. *)
Theorem profile_has_one_entry_per_skill role m p :
  NoDup (Skills.skill_abr <$> skills) →
  NoDup (Profile.skill_abr
           <$> frame_rows
                 (build_role_skill_profile role_keywords skills job_skills industries
                    job_industries role m p)).
Proof.
  intros Hnd.
  destruct (decide (role_job_ids role_keywords industries job_industries role = []))
    as [Hnil|Hne].
  { rewrite build_no_jobs by done. constructor. }
  rewrite built_rows_Permutation, profile_row_abr by done.
  replace (λ m : string * nat * Q * option string, m.1.1.1) with
    (fst ∘ (fst ∘ fst : string * nat * Q * option string → string * nat)) by done.
  rewrite (list_fmap_compose (fst ∘ fst)), (list_fmap_compose fst fst).
  rewrite merged_freq_fst by done. apply NoDup_value_counts_keys.
Qed.

(** X11. With distinct catalog keys the counts of a built profile add up to the
    number of job-skill links of the role's jobs. *)
Theorem profile_counts_add_up_to_links role m p :
  NoDup (Skills.skill_abr <$> skills) →
  sum_list (Profile.count
              <$> frame_rows
                    (build_role_skill_profile role_keywords skills job_skills
                       industries job_industries role m p))
  = length (role_links role_keywords job_skills industries job_industries role).
Proof.
  intros Hnd.
  destruct (decide (role_job_ids role_keywords industries job_industries role = []))
    as [Hnil|Hne].
  { rewrite build_no_jobs by done. unfold role_links. rewrite Hnil. simpl.
    symmetry. apply length_zero_iff_nil, elem_of_nil_inv.
    intros l [[]%elem_of_nil _]%list_elem_of_filter. }
  rewrite built_rows_Permutation, profile_row_count by done.
  replace (λ m : string * nat * Q * option string, m.1.1.2) with
    (snd ∘ (fst ∘ fst : string * nat * Q * option string → string * nat)) by done.
  rewrite (list_fmap_compose (fst ∘ fst)), (list_fmap_compose fst fst).
  rewrite merged_freq_fst by done.
  by rewrite sum_value_counts, length_fmap.
Qed.

End ProfileFurther.

Lemma nonpositive_threshold_makes_all_required_witness :
  let r := {| Profile.skill_abr := "S2"; Profile.count := 1;
              Profile.pct_jobs := 1 # 5; Profile.skill_name := Some "SQL";
              Profile.required := true; Profile.role := "DATA_ANALYST" |} in
  (0 <= 0)%Q
  ∧ r ∈ frame_rows
          (build_role_skill_profile ROLE_KEYWORDS Demo.skills Demo.job_skills
             Demo.industries Demo.job_industries "DATA_ANALYST" 50 0)
  ∧ Profile.required r = true.
Proof.
  intros r.
  assert (Hp : (0 <= 0)%Q) by apply Qle_refl.
  assert (Hr : r ∈ frame_rows
                     (build_role_skill_profile ROLE_KEYWORDS Demo.skills Demo.job_skills
                        Demo.industries Demo.job_industries "DATA_ANALYST" 50 0))
    by (vm_compute; right; left).
  do 2 (split; [done|]).
  exact (nonpositive_threshold_makes_all_required ROLE_KEYWORDS Demo.skills
           Demo.job_skills Demo.industries Demo.job_industries "DATA_ANALYST" 50 0 r Hp Hr).
Defined.

Lemma threshold_above_one_makes_all_optional_witness :
  let r := {| Profile.skill_abr := "S1"; Profile.count := 3;
              Profile.pct_jobs := 3 # 5; Profile.skill_name := Some "Python";
              Profile.required := false; Profile.role := "DATA_ANALYST" |} in
  NoDup Demo.job_skills
  ∧ (1 < 3 # 2)%Q
  ∧ r ∈ frame_rows
          (build_role_skill_profile ROLE_KEYWORDS Demo.skills Demo.job_skills
             Demo.industries Demo.job_industries "DATA_ANALYST" 50 (3 # 2))
  ∧ Profile.required r = false.
Proof.
  intros r.
  assert (Hnd : NoDup Demo.job_skills).
  { apply (bool_decide_unpack (NoDup Demo.job_skills)). vm_compute. exact I. }
  assert (Hp : (1 < 3 # 2)%Q) by (unfold Qlt; simpl; lia).
  assert (Hr : r ∈ frame_rows
                     (build_role_skill_profile ROLE_KEYWORDS Demo.skills Demo.job_skills
                        Demo.industries Demo.job_industries "DATA_ANALYST" 50 (3 # 2)))
    by (vm_compute; left).
  do 3 (split; [done|]).
  exact (threshold_above_one_makes_all_optional ROLE_KEYWORDS Demo.skills
           Demo.job_skills Demo.industries Demo.job_industries "DATA_ANALYST" 50 (3 # 2) r
           Hnd Hp Hr).
Defined.

Lemma profile_has_one_entry_per_skill_witness :
  NoDup (Skills.skill_abr <$> Demo.skills)
  ∧ NoDup (Profile.skill_abr <$> frame_rows Ties.profile).
Proof.
  assert (Hnd : NoDup (Skills.skill_abr <$> Demo.skills)).
  { apply (bool_decide_unpack (NoDup (Skills.skill_abr <$> Demo.skills))).
    vm_compute. exact I. }
  split; [exact Hnd|].
  exact (profile_has_one_entry_per_skill ROLE_KEYWORDS Demo.skills Ties.job_skills
           Demo.industries Ties.job_industries "DATA_ANALYST" 50 (3 # 10) Hnd).
Defined.

Lemma profile_counts_add_up_to_links_witness :
  NoDup (Skills.skill_abr <$> Demo.skills)
  ∧ sum_list (Profile.count <$> frame_rows Demo.profile) = 4.
Proof.
  assert (Hnd : NoDup (Skills.skill_abr <$> Demo.skills)).
  { apply (bool_decide_unpack (NoDup (Skills.skill_abr <$> Demo.skills))).
    vm_compute. exact I. }
  split; [exact Hnd|].
  exact (profile_counts_add_up_to_links ROLE_KEYWORDS Demo.skills Demo.job_skills
           Demo.industries Demo.job_industries "DATA_ANALYST" 50 (3 # 10) Hnd).
Defined.

(** ** The extractor *)

Lemma extract_loop_raises g text rows found e :
  extract_loop g text rows found = Raise e → e = NameError ∧ Globals.re g = None.
Proof.
  revert found. induction rows as [|row rows IH]; intros found; [done|].
  rewrite extract_loop_cons. destruct (decide (usable row)); [|apply IH].
  unfold lookup_re. destruct (Globals.re g) as [search|]; simpl.
  - apply IH.
  - by intros [= <-].
Qed.

(** X14. In the notebook as written the extractor finds no skill: for every
    resume it raises [NameError] when some catalog row passes the guard,
    and returns the empty set otherwise. Whatever [re] is bound to,
    [NameError] is the only error of the extractor, raised only when [re]
    is not bound, and a returned set holds identifiers of catalog rows that
    pass the guard. *)
Theorem extract_resume_skills_without_re skills resume_text :
  (Exists usable skills →
   extract_resume_skills notebook_globals skills resume_text = Raise NameError)
  ∧ (¬ Exists usable skills →
     extract_resume_skills notebook_globals skills resume_text = Ok ∅)
  ∧ ∀ g,
      (∀ e, extract_resume_skills g skills resume_text = Raise e →
            e = NameError ∧ Globals.re g = None)
      ∧ (∀ found, extract_resume_skills g skills resume_text = Ok found →
                  found ⊆ list_to_set (SkillPatterns.skill_abr <$> filter usable skills)).
Proof.
  split; [|split; [|intros g; split]].
  - intros He. rewrite extract_unbound by done. by rewrite decide_True.
  - intros He. rewrite extract_unbound by done. by rewrite decide_False.
  - intros e. apply extract_loop_raises.
  - intros found Hfound. destruct (Globals.re g) as [search|] eqn:Hg.
    + destruct (extract_bound g search skills resume_text Hg) as (found' & E & Hin).
      rewrite Hfound in E. injection E as <-.
      intros abr (row & Hrow & <- & Hu & _)%Hin.
      apply elem_of_list_to_set, list_elem_of_fmap_2. by apply list_elem_of_filter.
    + rewrite extract_unbound in Hfound by done.
      destruct (decide (Exists usable skills)); [done|].
      injection Hfound as <-. set_solver.
Qed.

(** X15. The order of the catalog rows does not matter, whatever [re] is
    bound to: the same set is returned, or [NameError] is raised for both
    orders. *)
Theorem extract_ignores_catalog_order g skills1 skills2 resume_text :
  skills1 ≡ₚ skills2 →
  extract_resume_skills g skills1 resume_text = extract_resume_skills g skills2 resume_text.
Proof.
  intros Hperm. destruct (Globals.re g) as [search|] eqn:Hg.
  - destruct (extract_bound g search skills1 resume_text Hg) as (found1 & -> & H1).
    destruct (extract_bound g search skills2 resume_text Hg) as (found2 & -> & H2).
    f_equal. apply set_eq. intros abr. rewrite H1, H2. by setoid_rewrite Hperm.
  - rewrite !extract_unbound by done.
    destruct (decide (Exists usable skills1)) as [He|He];
      destruct (decide (Exists usable skills2)) as [He'|He']; try done.
    + destruct He'. by rewrite <- Hperm.
    + destruct He. by rewrite Hperm.
Qed.

Lemma extract_ignores_catalog_order_witness :
  with_pattern Cpp.skills ≡ₚ reverse (with_pattern Cpp.skills)
  ∧ extract_resume_skills notebook_globals (with_pattern Cpp.skills) "I know Python"
    = extract_resume_skills notebook_globals (reverse (with_pattern Cpp.skills))
        "I know Python".
Proof.
  assert (Hperm : with_pattern Cpp.skills ≡ₚ reverse (with_pattern Cpp.skills))
    by (symmetry; apply reverse_Permutation).
  split; [exact Hperm|].
  exact (extract_ignores_catalog_order notebook_globals _ _ "I know Python" Hperm).
Defined.

(** X16. The extractor does not tell upper case from lower case, in the resume
    or in the skill names, whatever [re] is bound to. *)
Theorem extract_ignores_case g (skills : list Skills.row) resume_text :
  extract_resume_skills g (with_pattern skills) (lower resume_text)
  = extract_resume_skills g (with_pattern skills) resume_text
  ∧ ∀ name, make_pattern (lower name) = make_pattern name.
Proof.
  split.
  - unfold extract_resume_skills. by rewrite lower_idemp.
  - intros name. unfold make_pattern. by rewrite lower_idemp.
Qed.

(** X17. The catalog rows that the guard skips, those with an empty pattern
    or the lone separator, have no part in the outcome: without them the
    extractor returns the same set or raises the same error, whatever [re]
    is bound to. *)
Theorem extract_ignores_skipped_rows g skills resume_text :
  extract_resume_skills g (filter usable skills) resume_text
  = extract_resume_skills g skills resume_text.
Proof.
  unfold extract_resume_skills. generalize (∅ : gset string).
  induction skills as [|row rows IH]; intros found; [done|].
  rewrite filter_cons, (extract_loop_cons g _ row rows).
  destruct (decide (usable row)) as [Hu|Hu]; [|apply IH].
  rewrite extract_loop_cons, decide_True by done.
  destruct (lookup_re g) as [search|e]; [|done]. simpl. apply IH.
Qed.

(** ** The fit score *)

Lemma round_not_NaN x : Float.round x ≠ Float.NaN.
Proof.
  unfold Float.round. destruct (Qred x ?= 0)%Q; [done|..]; by destruct (Qle_bool _ _).
Qed.

Lemma float_add_not_NaN x b :
  x ≠ Float.NaN → Float.add x (Float.Finite b) ≠ Float.NaN.
Proof. destruct x as [a|s|]; simpl; [intros _; apply round_not_NaN | done | done]. Qed.

(** Zero divided by a number other than zero is zero. *)
Lemma float_div_zero y :
  y ≠ Float.NaN → Float.truthy y = true →
  Float.div (Float.Finite 0) y = Ok (Float.Finite 0).
Proof.
  unfold Float.truthy, Float.div. intros Hy Hz%negb_true_iff. rewrite Hz.
  destruct y as [b|s|]; [|done|done].
  by rewrite (round_proper (0 / b) 0) by (unfold Qdiv; ring).
Qed.

(** X19. The empty resume scores 0.0 against every profile with columns (of at
    most [2^53] rows) for every finite weight; with the weight NaN its
    score is NaN. *)
Theorem fit_score_of_empty_resume `{SetOrder} rows w :
  (Z.of_nat (length rows) ≤ 2 ^ 53)%Z →
  fit_score ∅ (Table rows) (Float.Finite w) = Ok (Float.Finite 0)
  ∧ fit_score ∅ (Table rows) Float.NaN = Ok Float.NaN.
Proof.
  intros Hlen. pose proof (profile_sizes_le_length rows) as Hsz.
  unfold fit_score. cbn -[score_denom Float.truthy Float.div].
  unfold score_loop. rewrite set_iter_empty. simpl foldl. split; [|done].
  assert (Hden : score_denom (required_set rows) (optional_set rows) (Float.Finite w)
                 ≠ Float.NaN).
  { unfold score_denom. rewrite !float_of_nat_exact by lia.
    apply float_add_not_NaN, round_not_NaN. }
  destruct (Float.truthy _) eqn:Ht; [|done]. by apply float_div_zero.
Qed.

Lemma fit_score_of_empty_resume_witness :
  (Z.of_nat (length (frame_rows Demo.profile)) ≤ 2 ^ 53)%Z
  ∧ fit_score (H := elements_order) ∅ (Table (frame_rows Demo.profile))
      (Float.round (7 # 10)) = Ok (Float.Finite 0).
Proof.
  assert (Hlen : (Z.of_nat (length (frame_rows Demo.profile)) ≤ 2 ^ 53)%Z)
    by (by vm_compute).
  split; [exact Hlen|].
  exact (proj1 (fit_score_of_empty_resume (H := elements_order)
                  (frame_rows Demo.profile) _ Hlen)).
Defined.

Lemma Qdiv_le_compat (a b d : Z) :
  (a ≤ b)%Z → (0 < d)%Z → (inject_Z a / inject_Z d <= inject_Z b / inject_Z d)%Q.
Proof.
  intros Hab Hd. unfold Qdiv. apply Qmult_le_compat_r; [by rewrite <- Zle_Qle|].
  apply Qinv_le_0_compat. change 0%Q with (inject_Z 0). rewrite <- Zle_Qle. lia.
Qed.

(** X20. With a whole weight a larger resume set never scores less. *)
Theorem fit_score_monotone `{SetOrder} (rs1 rs2 : gset string) rows k :
  whole_weight k rows →
  rs1 ⊆ rs2 →
  ∃ q1 q2,
    fit_score rs1 (Table rows) (Float.Finite (inject_Z k)) = Ok (Float.Finite q1)
    ∧ fit_score rs2 (Table rows) (Float.Finite (inject_Z k)) = Ok (Float.Finite q2)
    ∧ (q1 <= q2)%Q.
Proof.
  intros Hw Hsub. rewrite !(fit_score_exact _ rows k Hw).
  pose proof (weighted_total_le k rows Hw) as Htot. destruct Hw as [Hk Hlen].
  pose proof (weighted_hits_bounds (required_set rows) (optional_set rows) k rs1 Hk)
    as [H10 H1].
  pose proof (weighted_hits_bounds (required_set rows) (optional_set rows) k rs2 Hk)
    as [H20 H2].
  pose proof (weighted_hits_mono (required_set rows) (optional_set rows) k rs1 rs2 Hk Hsub)
    as Hmono.
  destruct (Z.eqb_spec (weighted_total (required_set rows) (optional_set rows) k) 0)
    as [E|Hne].
  - exists 0%Q, 0%Q. by repeat split.
  - destruct (round_quotient _ _ (conj H10 H1)) as (q1 & Hq1 & _); [lia|].
    destruct (round_quotient _ _ (conj H20 H2)) as (q2 & Hq2 & _); [lia|].
    exists q1, q2. rewrite Hq1, Hq2. do 2 (split; [done|]).
    eapply round_mono; [| |exact Hq1|exact Hq2].
    + apply Qle_shift_div_l.
      * change 0%Q with (inject_Z 0). rewrite <- Zlt_Qlt. lia.
      * rewrite Qmult_0_l. change 0%Q with (inject_Z 0). by rewrite <- Zle_Qle.
    + apply Qdiv_le_compat; lia.
Qed.

Lemma fit_score_monotone_witness :
  whole_weight 2 (frame_rows Demo.profile)
  ∧ ({["S1"]} : gset string) ⊆ {["S1"; "S2"]}
  ∧ ∃ q1 q2,
      fit_score (H := elements_order) {["S1"]} (Table (frame_rows Demo.profile))
        (Float.Finite 2) = Ok (Float.Finite q1)
      ∧ fit_score (H := elements_order) {["S1"; "S2"]} (Table (frame_rows Demo.profile))
          (Float.Finite 2) = Ok (Float.Finite q2)
      ∧ (q1 <= q2)%Q.
Proof.
  assert (Hw : whole_weight 2 (frame_rows Demo.profile)) by (split; by vm_compute).
  assert (Hsub : ({["S1"]} : gset string) ⊆ {["S1"; "S2"]}) by set_solver.
  do 2 (split; [done|]).
  exact (fit_score_monotone (H := elements_order) _ _ _ 2 Hw Hsub).
Defined.

(** X21. With a whole weight, resume skills that the profile does not list do
    not change the score. *)
Theorem fit_score_ignores_unprofiled_skills `{SetOrder} (rs : gset string) rows k :
  whole_weight k rows →
  fit_score (rs ∩ (required_set rows ∪ optional_set rows)) (Table rows)
    (Float.Finite (inject_Z k))
  = fit_score rs (Table rows) (Float.Finite (inject_Z k)).
Proof.
  intros Hw. rewrite !(fit_score_exact _ rows k Hw). by rewrite weighted_hits_restrict.
Qed.

Lemma fit_score_ignores_unprofiled_skills_witness :
  whole_weight 2 (frame_rows Demo.profile)
  ∧ fit_score (H := elements_order)
      ({["S1"; "S7"]} ∩ (required_set (frame_rows Demo.profile)
                         ∪ optional_set (frame_rows Demo.profile)))
      (Table (frame_rows Demo.profile)) (Float.Finite 2)
    = fit_score (H := elements_order) {["S1"; "S7"]} (Table (frame_rows Demo.profile))
        (Float.Finite 2).
Proof.
  assert (Hw : whole_weight 2 (frame_rows Demo.profile)) by (split; by vm_compute).
  split; [exact Hw|].
  exact (fit_score_ignores_unprofiled_skills (H := elements_order) {["S1"; "S7"]}
           (frame_rows Demo.profile) 2 Hw).
Defined.

(** X30. With a whole weight the score does not depend on the order in which
    the loop visits the resume set. With the weight 0.1 it does: against
    two required skills and an optional one, all three in the resume, one
    order adds [(1 + 0.1) + 0.1] and scores 1.0000000000000002, another
    adds [(0.1 + 0.1) + 1] and scores 1.0. *)
Theorem fit_score_and_the_iteration_order :
  (∀ (O1 O2 : SetOrder) (rs : gset string) rows k,
     whole_weight k rows →
     fit_score (H := O1) rs (Table rows) (Float.Finite (inject_Z k))
     = fit_score (H := O2) rs (Table rows) (Float.Finite (inject_Z k)))
  ∧ set_iter (SetOrder := elements_order) Mixed.resume = ["S3"; "S1"; "S2"]
  ∧ set_iter (SetOrder := reverse_order) Mixed.resume = ["S2"; "S1"; "S3"]
  ∧ required_set (frame_rows Mixed.profile) = {["S1"; "S2"]}
  ∧ optional_set (frame_rows Mixed.profile) = {["S3"]}
  ∧ fit_score (H := elements_order) Mixed.resume Mixed.profile (Float.round (1 # 10))
    = Ok (Float.round (10000000000000002 # 10000000000000000))
  ∧ fit_score (H := reverse_order) Mixed.resume Mixed.profile (Float.round (1 # 10))
    = Ok (Float.Finite 1).
Proof.
  split; [|by vm_compute].
  intros O1 O2 rs rows k Hw.
  by rewrite (fit_score_exact (H := O1)), (fit_score_exact (H := O2)).
Qed.

(** ** The report *)


Lemma dict_get_missing {V} (d : list (string * V)) key :
  key ∉ d.*1 → dict_get d key = Raise KeyError.
Proof.
  induction d as [|[k v] d IH]; [done|].
  rewrite fmap_cons. intros [Hne Hd]%not_elem_of_cons. simpl in *.
  destruct (String.eqb_spec k key); [congruence|]. by apply IH.
Qed.

Lemma role_profiles_keys cfg skills job_skills industries job_industries :
  (role_profiles cfg skills job_skills industries job_industries).*1 = cfg.*1.
Proof.
  unfold role_profiles. rewrite <- list_fmap_compose. by apply list_fmap_ext.
Qed.

(** [{r: g(r) for r in cfg}[role]] *)
Lemma dict_get_comprehension {V} (g : string → V)
    (cfg : list (string * list string)) role :
  role ∈ cfg.*1 →
  dict_get ((λ kv, (kv.1, g kv.1)) <$> cfg) role = Ok (g role).
Proof.
  induction cfg as [|[k kws] d IH]; [by intros ?%elem_of_nil|].
  rewrite !fmap_cons. simpl. intros Hin.
  destruct (String.eqb_spec k role) as [->|Hne]; [done|].
  apply IH. by apply elem_of_cons in Hin as [?|?].
Qed.

Lemma dict_get_role_profiles cfg skills job_skills industries job_industries role :
  role ∈ cfg.*1 →
  dict_get (role_profiles cfg skills job_skills industries job_industries) role
  = Ok (build_role_skill_profile cfg skills job_skills industries job_industries
          role 50 (3 # 10)).
Proof.
  apply (dict_get_comprehension
           (λ r, build_role_skill_profile cfg skills job_skills industries
                   job_industries r 50 (3 # 10))).
Qed.


(** X22. A report for a role that is no key of the configuration is never
    returned: [KeyError] is raised once the extractor has returned; in the
    notebook as written the [NameError] of the extractor comes first
    whenever a catalog row passes the guard. *)
Theorem build_fit_report_of_unconfigured_role `{SetOrder}
    g cfg skills job_skills industries job_industries resume_id resume_text role :
  role ∉ cfg.*1 →
  (Globals.re g = None → Exists usable (with_pattern skills) →
   build_fit_report g (with_pattern skills)
     (role_profiles cfg skills job_skills industries job_industries)
     resume_id resume_text role
   = Raise NameError)
  ∧ (is_Some (Globals.re g) ∨ ¬ Exists usable (with_pattern skills) →
     build_fit_report g (with_pattern skills)
       (role_profiles cfg skills job_skills industries job_industries)
       resume_id resume_text role
     = Raise KeyError).
Proof.
  intros Hrole. split.
  - intros Hg He. apply build_fit_report_extract_raises.
    rewrite extract_unbound by done. by rewrite decide_True.
  - intros Hret.
    assert (Hext : ∃ rskills,
               extract_resume_skills g (with_pattern skills) resume_text = Ok rskills).
    { destruct (Globals.re g) as [search|] eqn:Hg.
      - destruct (extract_bound g search (with_pattern skills) resume_text Hg)
          as (found & Hfound & _). by exists found.
      - destruct Hret as [[? [=]]|Hne]. exists ∅.
        rewrite extract_unbound by done. by rewrite decide_False. }
    destruct Hext as [rskills Hext]. unfold build_fit_report. rewrite Hext.
    cbn -[fit_score]. rewrite dict_get_missing; [done|]. by rewrite role_profiles_keys.
Qed.

Lemma build_fit_report_of_unconfigured_role_witness :
  ("DEVOPS" ∉ ROLE_KEYWORDS.*1)
  ∧ build_fit_report (H := elements_order) notebook_globals (with_pattern Demo.skills)
      Demo.profiles "resume-1" "I know Python" "DEVOPS" = Raise NameError
  ∧ build_fit_report (H := elements_order) globals_with_re (with_pattern Demo.skills)
      Demo.profiles "resume-1" "I know Python" "DEVOPS" = Raise KeyError.
Proof.
  assert (Hrole : "DEVOPS" ∉ ROLE_KEYWORDS.*1).
  { unfold ROLE_KEYWORDS. simpl. rewrite !not_elem_of_cons.
    repeat split; [discriminate..|]. apply not_elem_of_nil. }
  split; [exact Hrole|].
  destruct (build_fit_report_of_unconfigured_role (H := elements_order) notebook_globals
              ROLE_KEYWORDS Demo.skills Demo.job_skills Demo.industries
              Demo.job_industries "resume-1" "I know Python" "DEVOPS" Hrole) as [Hname _].
  destruct (build_fit_report_of_unconfigured_role (H := elements_order) globals_with_re
              ROLE_KEYWORDS Demo.skills Demo.job_skills Demo.industries
              Demo.job_industries "resume-1" "I know Python" "DEVOPS" Hrole) as [_ Hkey].
  split.
  - apply Hname; [done|]. apply Exists_cons. left. by vm_compute.
  - apply Hkey. left. by eexists.
Defined.

(** X23. A report for a configured role without jobs is never returned:
    [AttributeError] is raised once the extractor has returned, whatever
    the resume; in the notebook as written the [NameError] of the
    extractor comes first whenever a catalog row passes the guard. *)
Theorem build_fit_report_of_role_without_jobs `{SetOrder}
    g cfg skills job_skills industries job_industries resume_id resume_text role :
  role ∈ cfg.*1 →
  role_job_ids cfg industries job_industries role = [] →
  (Globals.re g = None → Exists usable (with_pattern skills) →
   build_fit_report g (with_pattern skills)
     (role_profiles cfg skills job_skills industries job_industries)
     resume_id resume_text role
   = Raise NameError)
  ∧ (is_Some (Globals.re g) ∨ ¬ Exists usable (with_pattern skills) →
     build_fit_report g (with_pattern skills)
       (role_profiles cfg skills job_skills industries job_industries)
       resume_id resume_text role
     = Raise AttributeError).
Proof.
  intros Hrole Hnil. split.
  - intros Hg He. apply build_fit_report_extract_raises.
    rewrite extract_unbound by done. by rewrite decide_True.
  - intros Hret.
    assert (Hext : ∃ rskills,
               extract_resume_skills g (with_pattern skills) resume_text = Ok rskills).
    { destruct (Globals.re g) as [search|] eqn:Hg.
      - destruct (extract_bound g search (with_pattern skills) resume_text Hg)
          as (found & Hfound & _). by exists found.
      - destruct Hret as [[? [=]]|Hne]. exists ∅.
        rewrite extract_unbound by done. by rewrite decide_False. }
    destruct Hext as [rskills Hext]. unfold build_fit_report. rewrite Hext.
    cbn -[fit_score]. rewrite dict_get_role_profiles by done.
    by rewrite build_no_jobs.
Qed.

Lemma build_fit_report_of_role_without_jobs_witness :
  "IT_SUPPORT" ∈ ROLE_KEYWORDS.*1
  ∧ role_job_ids ROLE_KEYWORDS Demo.industries Demo.job_industries "IT_SUPPORT" = []
  ∧ build_fit_report (H := elements_order) notebook_globals (with_pattern Demo.skills)
      Demo.profiles "resume-1" "" "IT_SUPPORT" = Raise NameError
  ∧ build_fit_report (H := elements_order) globals_with_re (with_pattern Demo.skills)
      Demo.profiles "resume-1" "" "IT_SUPPORT" = Raise AttributeError.
Proof.
  assert (Hrole : "IT_SUPPORT" ∈ ROLE_KEYWORDS.*1) by (vm_compute; do 4 right; left).
  assert (Hnil : role_job_ids ROLE_KEYWORDS Demo.industries Demo.job_industries
                   "IT_SUPPORT" = []) by reflexivity.
  do 2 (split; [done|]).
  destruct (build_fit_report_of_role_without_jobs (H := elements_order) notebook_globals
              ROLE_KEYWORDS Demo.skills Demo.job_skills Demo.industries
              Demo.job_industries "resume-1" "" "IT_SUPPORT" Hrole Hnil) as [Hname _].
  destruct (build_fit_report_of_role_without_jobs (H := elements_order) globals_with_re
              ROLE_KEYWORDS Demo.skills Demo.job_skills Demo.industries
              Demo.job_industries "resume-1" "" "IT_SUPPORT" Hrole Hnil) as [_ Hattr].
  split.
  - apply Hname; [done|]. apply Exists_cons. left. by vm_compute.
  - apply Hattr. left. by eexists.
Defined.



(** ** The frame behind the gap plot *)

Lemma gap_gt_asym x y : gap_gt x y = true → gap_gt y x = false.
Proof.
  unfold gap_gt.
  destruct (Profile.required (Gap.entry x)), (Profile.required (Gap.entry y)); simpl;
    try done.
  all: rewrite negb_true_iff, negb_false_iff, Qle_bool_iff; intros Hxy.
  all: destruct (Qlt_le_dec (Profile.pct_jobs (Gap.entry x)) (Profile.pct_jobs (Gap.entry y)))
         as [Hlt|Hle]; [|done].
  all: apply Qlt_le_weak, Qle_bool_iff in Hlt; congruence.
Qed.

Lemma not_below_gap a b :
  Pandas.not_below gap_gt a b ↔ required_then_pct_desc a b.
Proof.
  unfold Pandas.not_below, gap_gt, required_then_pct_desc.
  destruct (Profile.required (Gap.entry a)), (Profile.required (Gap.entry b)); simpl.
  - rewrite negb_false_iff, Qle_bool_iff. split; [by right|]. by intros [[]|[]].
  - split; [by left | done].
  - split; [done|]. by intros [[]|[]].
  - rewrite negb_false_iff, Qle_bool_iff. split; [by right|]. by intros [[]|[]].
Qed.

#[local] Instance required_then_pct_desc_trans : Transitive required_then_pct_desc.
Proof.
  intros a b c. unfold required_then_pct_desc.
  destruct (Profile.required (Gap.entry a)), (Profile.required (Gap.entry b)),
    (Profile.required (Gap.entry c));
    intros [[??]|[? Hab]] [[??]|[? Hbc]]; try done; try (by left).
  all: right; split; [done|]; by eapply Qle_trans.
Qed.

Lemma StronglySorted_take {A} (R : relation A) n l :
  StronglySorted R l → StronglySorted R (take n l).
Proof.
  intros Hl. revert n. induction Hl as [|x l Hl IH Hx]; intros [|n]; simpl; try constructor.
  - apply IH.
  - eapply Forall_take. exact Hx.
Qed.

Lemma py_head_take {A} (n : Z) (l : list A) :
  ∃ k, py_head n l = take k l ∧ ((0 <= n)%Z → k = Z.to_nat n).
Proof.
  unfold py_head. destruct (0 <=? n)%Z eqn:E.
  - by exists (Z.to_nat n).
  - exists (length l - Z.to_nat (- n))%nat. split; [done|]. lia.
Qed.

(** Sorting a list that is in order already leaves it as it is. *)
Lemma sort_desc_sorted {A} (gt : A → A → bool) l :
  Sorted (Pandas.not_below gt) l → Pandas.sort_desc gt l = l.
Proof.
  induction 1 as [|x l Hl IH Hhd]; [done|].
  rewrite sort_desc_cons, IH. destruct Hhd as [|y l Hxy]; [done|].
  simpl. unfold Pandas.not_below in Hxy. by rewrite Hxy.
Qed.

(** X25. For a profile with columns the frame of the plot holds profile entries
    only, each flagged as in the resume exactly when the resume set has its
    skill (the bar is green then, red otherwise) and as missing otherwise;
    the required entries come first and entries with the same flag are in
    descending order of [pct_jobs]; a non-negative [top_n] bounds the
    number of rows. *)
Theorem plot_gap_frame_of_profile (resume_skills : gset string) rows top_n :
  ∃ df,
    plot_gap_frame resume_skills (Table rows) top_n = Ok df
    ∧ (∀ g, g ∈ df →
         Gap.entry g ∈ rows
         ∧ (Gap.in_resume g = true ↔ Profile.skill_abr (Gap.entry g) ∈ resume_skills)
         ∧ Gap.missing g = negb (Gap.in_resume g)
         ∧ (bar_color g = "green" ↔ Profile.skill_abr (Gap.entry g) ∈ resume_skills))
    ∧ StronglySorted required_then_pct_desc df
    ∧ ((0 <= top_n)%Z → length df = Z.to_nat top_n `min` length rows).
Proof.
  unfold plot_gap_frame. simpl. eexists. split; [reflexivity|].
  destruct (py_head_take top_n (Pandas.sort_desc gap_gt (gap_row resume_skills <$> rows)))
    as (k & -> & Hk).
  split; [|split].
  - intros g Hg. apply elem_of_take in Hg as (i & Hg & _).
    apply list_elem_of_lookup_2, elem_of_sort_desc, list_elem_of_fmap in Hg
      as (r & -> & Hr).
    split; [done|]. unfold bar_color. simpl.
    rewrite bool_decide_eq_true. split; [done|]. split; [done|].
    destruct (bool_decide _) eqn:E.
    + apply bool_decide_eq_true in E. done.
    + apply bool_decide_eq_false in E. split; [discriminate | done].
  - apply StronglySorted_take, Sorted_StronglySorted; [apply _|].
    eapply Sorted_weaken; [intros a b; apply not_below_gap|].
    apply sort_desc_Sorted, gap_gt_asym.
  - intros Hn. rewrite (Hk Hn), length_take, length_sort_desc, length_fmap. done.
Qed.

Lemma built_rows_gap_sorted role_keywords skills job_skills industries job_industries
    role m p (resume_skills : gset string) :
  Sorted (Pandas.not_below gap_gt)
    (gap_row resume_skills
       <$> frame_rows
             (build_role_skill_profile role_keywords skills job_skills industries
                job_industries role m p)).
Proof.
  set (rows := frame_rows _).
  assert (Hreq : ∀ r, r ∈ rows → Profile.required r = Qle_bool p (Profile.pct_jobs r)).
  { by intros r (_ & _ & _ & _ & _ & Hr & _)%elem_of_profile. }
  pose proof (built_rows_sorted role_keywords skills job_skills industries job_industries
                role m p) as Hs.
  fold rows in Hs. clearbody rows.
  induction Hs as [|x l Hl IH Hx]; [constructor|].
  rewrite fmap_cons. constructor.
  - apply IH. intros r Hr. apply Hreq. by right.
  - destruct l as [|y l]; [constructor|]. rewrite fmap_cons. constructor.
    apply not_below_gap. unfold required_then_pct_desc. simpl.
    apply Forall_cons in Hx as [Hxy _]. unfold pct_desc in Hxy.
    rewrite (Hreq x) by left. rewrite (Hreq y) by (right; left).
    destruct (Qle_bool p (Profile.pct_jobs x)) eqn:Ex,
             (Qle_bool p (Profile.pct_jobs y)) eqn:Ey; [by right|by left| |by right].
    apply Qle_bool_iff in Ey. apply not_true_iff_false in Ex.
    destruct Ex. apply Qle_bool_iff. by eapply Qle_trans.
Qed.

(** X26. For a built profile the sort of [plot_gap] changes nothing: with a
    non-negative [top_n] the frame is the first [top_n] entries of the
    profile, in profile order, with their flags. *)
Theorem plot_gap_frame_of_built_profile
    role_keywords skills job_skills industries job_industries role m p
    (resume_skills : gset string) top_n :
  role_job_ids role_keywords industries job_industries role ≠ [] →
  (0 <= top_n)%Z →
  plot_gap_frame resume_skills
    (build_role_skill_profile role_keywords skills job_skills industries
       job_industries role m p) top_n
  = Ok (gap_row resume_skills
          <$> take (Z.to_nat top_n)
                (frame_rows
                   (build_role_skill_profile role_keywords skills job_skills industries
                      job_industries role m p))).
Proof.
  intros Hne Hn.
  pose proof (built_rows_gap_sorted role_keywords skills job_skills industries
                job_industries role m p resume_skills) as Hs.
  rewrite build_rows in * by done. simpl in *.
  unfold plot_gap_frame. simpl. rewrite sort_desc_sorted by done.
  unfold py_head. rewrite (proj2 (Z.leb_le 0 top_n) Hn). by rewrite fmap_take.
Qed.

Lemma plot_gap_frame_of_built_profile_witness :
  role_job_ids ROLE_KEYWORDS Demo.industries Demo.job_industries "DATA_ANALYST" ≠ []
  ∧ (0 <= 1)%Z
  ∧ plot_gap_frame {["S2"]} Demo.profile 1
    = Ok (gap_row {["S2"]} <$> take 1 (frame_rows Demo.profile)).
Proof.
  assert (Hne : role_job_ids ROLE_KEYWORDS Demo.industries Demo.job_industries
                  "DATA_ANALYST" ≠ []) by (vm_compute; discriminate).
  assert (Hn : (0 <= 1)%Z) by lia.
  do 2 (split; [done|]).
  exact (plot_gap_frame_of_built_profile ROLE_KEYWORDS Demo.skills Demo.job_skills
           Demo.industries Demo.job_industries "DATA_ANALYST" 50 (3 # 10) {["S2"]} 1
           Hne Hn).
Defined.

(** X27. For a role without jobs [plot_gap] raises [KeyError] on its first
    column access, where [fit_score] raises [AttributeError]. *)
Theorem plot_gap_frame_of_role_without_jobs `{SetOrder}
    role_keywords skills job_skills industries job_industries role m p
    (resume_skills : gset string) top_n w :
  role_job_ids role_keywords industries job_industries role = [] →
  plot_gap_frame resume_skills
    (build_role_skill_profile role_keywords skills job_skills industries
       job_industries role m p) top_n
  = Raise KeyError
  ∧ fit_score resume_skills
      (build_role_skill_profile role_keywords skills job_skills industries
         job_industries role m p) w
    = Raise AttributeError.
Proof. intros Hnil. by rewrite build_no_jobs. Qed.

Lemma plot_gap_frame_of_role_without_jobs_witness :
  role_job_ids ROLE_KEYWORDS Demo.industries Demo.job_industries "ML_ENGINEER" = []
  ∧ plot_gap_frame {["S1"]}
      (build_role_skill_profile ROLE_KEYWORDS Demo.skills Demo.job_skills
         Demo.industries Demo.job_industries "ML_ENGINEER" 50 (3 # 10)) 15
    = Raise KeyError.
Proof.
  assert (Hnil : role_job_ids ROLE_KEYWORDS Demo.industries Demo.job_industries
                   "ML_ENGINEER" = []) by reflexivity.
  split; [exact Hnil|].
  exact (proj1 (plot_gap_frame_of_role_without_jobs (H := elements_order)
                  ROLE_KEYWORDS Demo.skills Demo.job_skills Demo.industries
                  Demo.job_industries "ML_ENGINEER" 50 (3 # 10) {["S1"]} 15
                  (Float.Finite 2) Hnil)).
Defined.

(** ** The skill name column of the loaded catalog *)

Lemma lower_cols_get_Some columns key orig :
  Loader.lower_cols_get columns key = Some orig → orig ∈ columns ∧ lower orig = key.
Proof.
  unfold Loader.lower_cols_get. intros H%last_Some_elem_of.
  by apply list_elem_of_filter in H as [? ?].
Qed.

Lemma lower_cols_get_None columns key :
  Loader.lower_cols_get columns key = None ↔ ∀ c, c ∈ columns → lower c ≠ key.
Proof.
  unfold Loader.lower_cols_get. rewrite last_None. split.
  - intros Hnil c Hc Hkey.
    assert (Hin : c ∈ filter (λ c, lower c = key) columns) by by apply list_elem_of_filter.
    rewrite Hnil in Hin. by apply elem_of_nil in Hin.
  - intros Hnone. apply elem_of_nil_inv. intros c [Hkey Hc]%list_elem_of_filter.
    by apply (Hnone c).
Qed.

Lemma rename_has_skill_name orig columns :
  orig ∈ columns → "skill_name" ∈ Loader.rename orig columns.
Proof.
  intros Hin. unfold Loader.rename. apply list_elem_of_fmap. exists orig.
  by rewrite String.eqb_refl.
Qed.

Lemma rename_Forall2 orig columns :
  Forall2 (λ c c', c' = c ∨ c' = "skill_name") columns (Loader.rename orig columns).
Proof.
  unfold Loader.rename. induction columns as [|c columns IH]; [constructor|].
  rewrite fmap_cons. constructor; [|done]. destruct (String.eqb c orig); auto.
Qed.

Lemma rename_first_guess_cases guesses columns :
  (∃ guess orig, guess ∈ guesses ∧ Loader.lower_cols_get columns guess = Some orig
                 ∧ Loader.rename_first_guess guesses columns = Loader.rename orig columns)
  ∨ ((∀ guess, guess ∈ guesses → Loader.lower_cols_get columns guess = None)
     ∧ Loader.rename_first_guess guesses columns = columns).
Proof.
  induction guesses as [|g guesses IH]; simpl.
  - right. split; [by intros ? ?%elem_of_nil | done].
  - destruct (Loader.lower_cols_get columns g) as [orig|] eqn:E.
    + left. exists g, orig. split; [left | done].
    + destruct IH as [(guess & orig & Hin & Hget & Hres)|[Hnone Hres]].
      * left. exists guess, orig. split; [by right | done].
      * right. split; [|done]. intros guess [->|Hin]%elem_of_cons; auto.
Qed.

(** X28. The column check of the loader raises [ValueError] exactly when no
    column name, lower-cased, is skill_name, skill, name or skillname.
    Otherwise the renamed columns include skill_name, and every column
    keeps its place and either its name or becomes skill_name. *)
Theorem skill_name_column_exact (columns : list string) :
  (Loader.skill_name_column columns = Loader.RaiseValueError ↔
   ∀ c, c ∈ columns → lower c ∉ ["skill_name"; "skill"; "name"; "skillname"])
  ∧ (∀ renamed,
       Loader.skill_name_column columns = Loader.Loaded renamed →
       "skill_name" ∈ renamed
       ∧ Forall2 (λ c c', c' = c ∨ c' = "skill_name") columns renamed).
Proof.
  unfold Loader.skill_name_column.
  destruct (Loader.lower_cols_get columns "skill_name") as [orig|] eqn:E.
  - apply lower_cols_get_Some in E as [Horig Hlow].
    rewrite bool_decide_eq_true_2 by by apply rename_has_skill_name.
    split.
    + split; [done|]. intros Hnone. destruct (Hnone orig Horig). rewrite Hlow. left.
    + intros renamed [= <-]. split; [by apply rename_has_skill_name|].
      apply rename_Forall2.
  - pose proof (proj1 (lower_cols_get_None _ _) E) as Hno.
    destruct (rename_first_guess_cases ["skill"; "name"; "skillname"] columns)
      as [(guess & orig & Hguess & Hget & ->)|[Hnone ->]].
    + apply lower_cols_get_Some in Hget as [Horig Hlow].
      rewrite bool_decide_eq_true_2 by by apply rename_has_skill_name.
      split.
      * split; [done|]. intros Hall. destruct (Hall orig Horig).
        rewrite Hlow. by right.
      * intros renamed [= <-]. split; [by apply rename_has_skill_name|].
        apply rename_Forall2.
    + assert (Hmiss : "skill_name" ∉ columns) by (intros Hin; by apply (Hno _ Hin)).
      rewrite bool_decide_eq_false_2 by done. split; [|done].
      split; [|done]. intros _ c Hc [Heq|Hin]%elem_of_cons; [by apply (Hno c)|].
      assert (Hget : Loader.lower_cols_get columns (lower c) = None) by by apply Hnone.
      by apply (proj1 (lower_cols_get_None _ _) Hget c).
Qed.

Lemma lstrip_first s c :
  Regex.first_char (Loader.lstrip s) = Some c → Loader.is_space c = false.
Proof.
  induction s as [|a r IH]; [done|]. simpl.
  destruct (Loader.is_space a) eqn:E; [done|]. by intros [= <-].
Qed.

Lemma lstrip_fixed s :
  (∀ c, Regex.first_char s = Some c → Loader.is_space c = false) → Loader.lstrip s = s.
Proof. destruct s as [|a r]; [done|]. simpl. intros H. by rewrite (H a). Qed.

Lemma rstrip_first s c :
  Regex.first_char (Loader.rstrip s) = Some c → Regex.first_char s = Some c.
Proof.
  destruct s as [|a r]; [done|]. simpl.
  destruct (Loader.rstrip r); [|done]. by destruct (Loader.is_space a).
Qed.

Lemma last_char_cons_ne prev c s :
  s ≠ "" → Regex.last_char (Some c) s = Regex.last_char prev s.
Proof. by destruct s. Qed.

Lemma rstrip_last s c :
  Regex.last_char None (Loader.rstrip s) = Some c → Loader.is_space c = false.
Proof.
  induction s as [|a r IH]; [done|]. simpl.
  destruct (Loader.rstrip r) as [|b r'] eqn:E.
  - destruct (Loader.is_space a) eqn:Ea; [done|]. by intros [= <-].
  - intros H. apply IH. by rewrite <- H.
Qed.

Lemma rstrip_fixed s :
  (∀ c, Regex.last_char None s = Some c → Loader.is_space c = false) →
  Loader.rstrip s = s.
Proof.
  induction s as [|a r IH]; [done|]. intros Hlast. simpl.
  destruct r as [|b r].
  - simpl. simpl in Hlast. by rewrite (Hlast a).
  - rewrite IH; [done|]. intros c Hc. apply Hlast. by rewrite <- Hc.
Qed.

(** X29. Cleaning a skill name leaves no white space at its ends, and cleaning a
    cleaned name changes nothing. *)
Theorem strip_leaves_no_space_at_the_ends (s : string) :
  (∀ c, Regex.first_char (Loader.strip s) = Some c → Loader.is_space c = false)
  ∧ (∀ c, Regex.last_char None (Loader.strip s) = Some c → Loader.is_space c = false)
  ∧ Loader.strip (Loader.strip s) = Loader.strip s.
Proof.
  assert (Hfirst : ∀ c, Regex.first_char (Loader.strip s) = Some c →
                        Loader.is_space c = false).
  { intros c Hc. by apply rstrip_first, lstrip_first in Hc. }
  assert (Hlast : ∀ c, Regex.last_char None (Loader.strip s) = Some c →
                       Loader.is_space c = false).
  { intros c. apply rstrip_last. }
  do 2 (split; [done|]).
  unfold Loader.strip at 1. rewrite lstrip_fixed by done. by apply rstrip_fixed.
Qed.

Example strip_blanks : Loader.clean_skill_name (PStr "  Data  Science ") = "Data  Science".
Proof. reflexivity. Qed.

Example strip_missing_name : Loader.clean_skill_name PNaN = "nan".
Proof. reflexivity. Qed.

Example rename_guessed_column :
  Loader.skill_name_column ["skill_abr"; "Skill"; "Name"]
  = Loader.Loaded ["skill_abr"; "skill_name"; "Name"].
Proof. reflexivity. Qed.

Example rename_last_of_equal_names :
  Loader.skill_name_column ["Skill_Name"; "SKILL_NAME"]
  = Loader.Loaded ["Skill_Name"; "skill_name"].
Proof. reflexivity. Qed.

Example rename_without_candidate :
  Loader.skill_name_column ["skill_abr"; "label"] = Loader.RaiseValueError.
Proof. reflexivity. Qed.

(** ** The two empty profiles *)

Lemma catalog_name_exists (skills : list Skills.row) abr :
  ∃ name, catalog_name skills abr name.
Proof.
  destruct (filter (λ s, Skills.skill_abr s = abr) skills) as [|s hits] eqn:E.
  - exists None. left. split; [done|]. intros s Hs Habr.
    assert (Hin : s ∈ filter (λ s, Skills.skill_abr s = abr) skills)
      by by apply list_elem_of_filter.
    rewrite E in Hin. by apply elem_of_nil in Hin.
  - assert (Hin : s ∈ filter (λ s, Skills.skill_abr s = abr) skills) by (rewrite E; left).
    apply list_elem_of_filter in Hin as [Habr Hs].
    exists (Some (Skills.skill_name s)). right. by exists s.
Qed.

(** X6. The builder returns the frame without columns exactly for a role
    without jobs, and an empty frame with columns exactly for a role that
    has jobs none of which has a job-skill link. *)
Theorem empty_profiles_told_apart
    role_keywords skills job_skills industries job_industries role m p :
  (build_role_skill_profile role_keywords skills job_skills industries job_industries
     role m p = NoColumns
   ↔ role_job_ids role_keywords industries job_industries role = [])
  ∧ (build_role_skill_profile role_keywords skills job_skills industries job_industries
       role m p = Table []
     ↔ role_job_ids role_keywords industries job_industries role ≠ []
       ∧ role_links role_keywords job_skills industries job_industries role = []).
Proof.
  destruct (decide (role_job_ids role_keywords industries job_industries role = []))
    as [Hnil|Hne].
  { rewrite build_no_jobs by done. split; [done|]. split; [done|]. by intros [? _]. }
  split.
  { rewrite build_rows by done. done. }
  split.
  - intros Hempty. split; [done|]. apply elem_of_nil_inv. intros l Hl.
    destruct (catalog_name_exists skills (JobSkills.skill_abr l)) as [name Hname].
    set (c := occurrences role_keywords job_skills industries job_industries role
                (JobSkills.skill_abr l)).
    set (pct := (inject_Z (Z.of_nat c)
                 / Q_of_len (role_job_ids role_keywords industries job_industries role))%Q).
    assert (Hin : {| Profile.skill_abr := JobSkills.skill_abr l; Profile.count := c;
                     Profile.pct_jobs := pct; Profile.skill_name := name;
                     Profile.required := Qle_bool p pct; Profile.role := role |}
                  ∈ frame_rows
                      (build_role_skill_profile role_keywords skills job_skills industries
                         job_industries role m p)).
    { apply elem_of_profile. simpl. split; [done|]. split; [by exists l|]. done. }
    rewrite Hempty in Hin. by apply elem_of_nil in Hin.
  - intros [_ Hlinks].
    assert (Hrows : frame_rows
                      (build_role_skill_profile role_keywords skills job_skills industries
                         job_industries role m p) = []).
    { apply elem_of_nil_inv. intros r (_ & (l & Hl & _) & _)%elem_of_profile.
      rewrite Hlinks in Hl. by apply elem_of_nil in Hl. }
    rewrite build_rows in * by done. simpl in Hrows. by rewrite Hrows.
Qed.
